(** * SimpleCalculator: tokenizer, shunting-yard converter and postfix evaluator

    A shallow embedding of [src/src/SimpleCalculator.cpp].  The three stages
    ([Tokenize], [ConvertToRPN] and the evaluation loop of
    [SimpleCalculator::Evaluate]) are transcribed statement by statement.

    - [std::wstring] is a list of code points, [std::vector<Token>] a list
      that grows at its end, [std::stack] a list whose head is the top.
    - The global [std::map<wchar_t, Token> Operators] is a [gmap] that is
      threaded through the calls, because [Operators[curr]] inserts a
      default-constructed token whenever [curr] is not yet a key.
    - [double] arithmetic, [std::pow], [std::wcstod] and the locale
      predicates [std::iswalpha] / [std::iswspace] live outside the
      repository; they are the fields of the classes [Arith] and [Locale]. *)

From Stdlib Require Import ZArith QArith Lia List String Ascii Bool.
From stdpp Require Import base option list gmap.

Local Open Scope N_scope.

(** ** Characters and strings *)

Definition wchar_t := N.
Definition wstring := list N.

(** [L"..."]: a narrow literal read as a wide string. *)
Definition L (s : string) : wstring :=
  List.map N_of_ascii (list_ascii_of_string s).

(** [std::iswdigit] does not depend on the locale: the ten decimal digits. *)
Definition iswdigit (c : wchar_t) : bool := (48 <=? c) && (c <=? 57).

(** The locale-dependent classification functions of [<cwctype>]. *)
Class Locale := {
  iswalpha : wchar_t -> bool;
  iswspace : wchar_t -> bool
}.

(** The "C" locale, which is in force because [main] never calls
    [setlocale]: letters are [A-Z] and [a-z], white space is the blank and
    the five control characters [\t \n \v \f \r]. *)
Definition C_iswalpha (c : wchar_t) : bool :=
  ((65 <=? c) && (c <=? 90)) || ((97 <=? c) && (c <=? 122)).
Definition C_iswspace (c : wchar_t) : bool :=
  (c =? 32) || ((9 <=? c) && (c <=? 13)).

Definition C_locale : Locale :=
  {| iswalpha := C_iswalpha; iswspace := C_iswspace |}.

(** [s.substr(pos, n)], [s.substr(pos)] and [s.c_str()] as seen by a
    function that reads a NUL-terminated wide string. *)
Definition substr (s : wstring) (pos n : nat) : wstring := firstn n (skipn pos s).
Definition substr_from (s : wstring) (pos : nat) : wstring := skipn pos s.
Fixpoint c_str (s : wstring) : wstring :=
  match s with
  | [] => []
  | c :: s' => if c =? 0 then [] else c :: c_str s'
  end.

(** ** Numbers *)

(** What the code needs from [double]: the literal [0], the four operators,
    [std::pow] and [std::wcstod]. *)
Class Arith := {
  double : Type;
  dzero : double;
  dadd : double -> double -> double;
  dsub : double -> double -> double;
  dmul : double -> double -> double;
  ddiv : double -> double -> double;
  pow : double -> double -> double;
  wcstod : wstring -> double
}.

(** ** Tokens and error codes (Calculator.h, SimpleCalculator.cpp:8-26) *)

Inductive EvaluationError :=
| OK
| InvalidCharacters
| UnknownOperator
| MismatchedParantheses
| TooManyInputs
| NotEnoughInputs.

Inductive TokenType :=
| Number | Add | Sub | Mult | Div | Exp
| LParanthesis | RParenthesis.

Global Instance EvaluationError_eq_dec : EqDecision EvaluationError.
Proof. solve_decision. Defined.
Global Instance TokenType_eq_dec : EqDecision TokenType.
Proof. solve_decision. Defined.

Record Token `{Arith} := mkToken { type : TokenType; val : double }.

(** [Token(TokenType t, double val = 0)] with the default argument. *)
Definition Token_of `{Arith} (t : TokenType) : Token := mkToken _ t dzero.

(** How one pass through a loop body ends: it falls through (or hits
    [continue]) with a new state, or it executes [return e]. *)
Inductive Flow (S : Type) :=
| Next (s : S)
| Return (e : EvaluationError) (s : S).
Arguments Next {S} s.
Arguments Return {S} e s.

Definition push_back {X} (v : list X) (x : X) : list X := v ++ [x].

Section Calculator.
Context `{A : Arith} `{Loc : Locale}.

(** [Token() { }] sets neither field.  What a map node built that way holds
    is whatever the allocator hands out; [uninit c] stands for the token that
    is read back from the node created for key [c]: some enumerator and some
    number, about which nothing is assumed. *)
Variable uninit : wchar_t -> Token.

(** ** The global tables (SimpleCalculator.cpp:28-44) *)

Definition Operators : gmap wchar_t Token :=
  <[43 := Token_of Add]> (<[45 := Token_of Sub]> (<[42 := Token_of Mult]>
  (<[47 := Token_of Div]> (<[94 := Token_of Exp]>
  (<[40 := Token_of LParanthesis]> (<[41 := Token_of RParenthesis]> ∅)))))).

(** [OperatorPrecendence[t]]: the five entries of the table; a key that is
    absent would be inserted with a value-initialised [int], so it reads 0
    now and ever after. *)
Definition OperatorPrecendence (t : TokenType) : Z :=
  match t with
  | Add => 0 | Sub => 0
  | Mult => 1 | Div => 1
  | Exp => 2
  | _ => 0
  end%Z.

(** [Operators.count(c) > 0] *)
Definition Operators_count (ops : gmap wchar_t Token) (c : wchar_t) : bool :=
  bool_decide (is_Some (ops !! c)).

(** [Operators[c]] on the non-const map: returns the mapped token, and adds
    the key with a default-constructed token first when it is missing. *)
Definition Operators_at (ops : gmap wchar_t Token) (c : wchar_t)
  : Token * gmap wchar_t Token :=
  match ops !! c with
  | Some t => (t, ops)
  | None => (uninit c, <[c := uninit c]> ops)
  end.

(** ** Tokenize (SimpleCalculator.cpp:119-193) *)

Record TokState := mkTokState {
  parsing_number : bool;
  start_index : nat;
  tokens : list Token;
  ops : gmap wchar_t Token
}.

Definition Tokenize_body (text : wstring) (i : nat) (s : TokState) : Flow TokState :=
  let curr := nth i text 0 in
  if iswalpha curr then Return InvalidCharacters s else
  let token_is_space := iswspace curr in
  let token_is_op := Operators_count (ops s) curr in
  if negb (parsing_number s) then
    if iswdigit curr || (curr =? 46) then
      Next (mkTokState true i (tokens s) (ops s))
    else
      let '(op, ops1) := Operators_at (ops s) curr in
      if bool_decide (type op = Sub) && (i + 1 <? length text)%nat
         && iswdigit (nth (i + 1) text 0)
      then Next (mkTokState true i (tokens s) ops1)
      else if token_is_op then
        let '(op', ops2) := Operators_at ops1 curr in
        Next (mkTokState false (start_index s) (push_back (tokens s) op') ops2)
      else if token_is_space then
        Next (mkTokState false (start_index s) (tokens s) ops1)
      else
        Return UnknownOperator (mkTokState false (start_index s) (tokens s) ops1)
  else
    let number_consumed := token_is_space || token_is_op in
    if number_consumed then
      let v := wcstod (c_str (substr text (start_index s) (i - start_index s))) in
      let tokens1 := push_back (tokens s) (mkToken _ Number v) in
      if token_is_op then
        let '(op, ops1) := Operators_at (ops s) curr in
        Next (mkTokState false (start_index s) (push_back tokens1 op) ops1)
      else
        Next (mkTokState false (start_index s) tokens1 (ops s))
    else Next s.

(** [for (size_t i = 0; i < text.length(); i++)] over the indices still to
    visit. *)
Fixpoint Tokenize_for (text : wstring) (idx : list nat) (s : TokState) : Flow TokState :=
  match idx with
  | [] => Next s
  | i :: idx' =>
      match Tokenize_body text i s with
      | Next s' => Tokenize_for text idx' s'
      | Return e s' => Return e s'
      end
  end.

(** The whole function: the error code, the contents of the out-parameter
    [tokens] (which starts empty) and the table it leaves behind. *)
Definition Tokenize (ops0 : gmap wchar_t Token) (text : wstring)
  : EvaluationError * list Token * gmap wchar_t Token :=
  match Tokenize_for text (seq 0 (length text)) (mkTokState false 0%nat [] ops0) with
  | Return e s => (e, tokens s, ops s)
  | Next s =>
      if parsing_number s then
        let v := wcstod (c_str (substr_from text (start_index s))) in
        (OK, push_back (tokens s) (mkToken _ Number v), ops s)
      else (OK, tokens s, ops s)
  end.

(** The characters at which the body of the loop never executes
    [return UnknownOperator], whatever the scanner's state: letters (the
    first test of the body returns), digits, the decimal point, white space
    and the keys of the table. *)
Definition accepted (ops : gmap wchar_t Token) (c : wchar_t) : Prop :=
  iswalpha c = true \/ iswdigit c = true \/ c = 46 \/ iswspace c = true
  \/ is_Some (ops !! c).

(** The tables that calls of [Tokenize] can produce from the initial one:
    the seven initial entries are as they were, and any other key holds the
    token of the node that was created for it. *)
Definition table_reached (ops : gmap wchar_t Token) : Prop :=
  forall c, ops !! c = Operators !! c
            \/ (Operators !! c = None /\ ops !! c = Some (uninit c)).

(** ** ConvertToRPN (SimpleCalculator.cpp:195-268) *)

(** The [while (!op_stack.empty() && !left_paren_found)] loop of the
    right-parenthesis case (lines 214-227).  The popped token is the one that
    was on top before [pop()].  Returns [left_paren_found] with the stack and
    the output as the loop leaves them. *)
Fixpoint RParen_while (op_stack rpn : list Token) : bool * list Token * list Token :=
  match op_stack with
  | [] => (false, [], rpn)
  | popped_op :: op_stack' =>
      if bool_decide (type popped_op ≠ LParanthesis)
      then RParen_while op_stack' (push_back rpn popped_op)
      else (true, op_stack', rpn)
  end.

(** The [default:] case up to, but not including, [op_stack.push(t)]
    (lines 235-249): one look at the top of the stack, at most one pop. *)
Definition default_compare (t : Token) (op_stack rpn : list Token)
  : list Token * list Token :=
  match op_stack with
  | [] => (op_stack, rpn)
  | top_op :: op_stack' =>
      let is_left_assoc := bool_decide (type t ≠ Exp) in
      if bool_decide (type top_op ≠ LParanthesis) then
        if (is_left_assoc
            && (OperatorPrecendence (type t) <=? OperatorPrecendence (type top_op))%Z)
           || (negb is_left_assoc
            && (OperatorPrecendence (type t) <? OperatorPrecendence (type top_op))%Z)
        then (op_stack', push_back rpn top_op)
        else (op_stack, rpn)
      else (op_stack, rpn)
  end.

(** One iteration of [for (auto& t : tokens)]; the state is the operator
    stack and the output vector. *)
Definition ConvertToRPN_body (t : Token) (s : list Token * list Token)
  : Flow (list Token * list Token) :=
  let '(op_stack, rpn) := s in
  match type t with
  | Number => Next (op_stack, push_back rpn t)
  | LParanthesis => Next (t :: op_stack, rpn)
  | RParenthesis =>
      let '(left_paren_found, op_stack', rpn') := RParen_while op_stack rpn in
      if negb left_paren_found
      then Return MismatchedParantheses (op_stack', rpn')
      else Next (op_stack', rpn')
  | _ =>
      let '(op_stack', rpn') := default_compare t op_stack rpn in
      Next (t :: op_stack', rpn')
  end.

Fixpoint ConvertToRPN_for (tokens : list Token) (s : list Token * list Token)
  : Flow (list Token * list Token) :=
  match tokens with
  | [] => Next s
  | t :: tokens' =>
      match ConvertToRPN_body t s with
      | Next s' => ConvertToRPN_for tokens' s'
      | Return e s' => Return e s'
      end
  end.

(** The final [while (!op_stack.empty())] (lines 256-265). *)
Fixpoint drain (op_stack rpn : list Token) : EvaluationError * list Token :=
  match op_stack with
  | [] => (OK, rpn)
  | popped_op :: op_stack' =>
      if bool_decide (type popped_op ≠ LParanthesis)
      then drain op_stack' (push_back rpn popped_op)
      else (MismatchedParantheses, rpn)
  end.

(** The error code and the contents of the out-parameter [rpn], which the
    caller passes in empty. *)
Definition ConvertToRPN (tokens : list Token) : EvaluationError * list Token :=
  match ConvertToRPN_for tokens ([], []) with
  | Return e (_, rpn) => (e, rpn)
  | Next (op_stack, rpn) => drain op_stack rpn
  end.

(** ** The textbook conversion, for comparison

    These definitions are not in the source.  They follow the wording of the
    specification (section 4.2 and the open question of section 9): an
    incoming operator [t] pops the top of the stack while that top is not a
    left parenthesis and [t] is left-associative with precedence at most the
    top's, or right-associative with precedence below the top's. *)

Definition pop_condition (t top_op : Token) : bool :=
  bool_decide (type top_op ≠ LParanthesis)
  && ((bool_decide (type t ≠ Exp)
       && (OperatorPrecendence (type t) <=? OperatorPrecendence (type top_op))%Z)
      || (bool_decide (type t = Exp)
       && (OperatorPrecendence (type t) <? OperatorPrecendence (type top_op))%Z)).

Fixpoint looped_compare (t : Token) (op_stack rpn : list Token)
  : list Token * list Token :=
  match op_stack with
  | [] => ([], rpn)
  | top_op :: op_stack' =>
      if pop_condition t top_op
      then looped_compare t op_stack' (push_back rpn top_op)
      else (op_stack, rpn)
  end.

Definition looped_body (t : Token) (s : list Token * list Token)
  : Flow (list Token * list Token) :=
  let '(op_stack, rpn) := s in
  match type t with
  | Number => Next (op_stack, push_back rpn t)
  | LParanthesis => Next (t :: op_stack, rpn)
  | RParenthesis =>
      let '(left_paren_found, op_stack', rpn') := RParen_while op_stack rpn in
      if negb left_paren_found
      then Return MismatchedParantheses (op_stack', rpn')
      else Next (op_stack', rpn')
  | _ =>
      let '(op_stack', rpn') := looped_compare t op_stack rpn in
      Next (t :: op_stack', rpn')
  end.

Fixpoint looped_for (tokens : list Token) (s : list Token * list Token)
  : Flow (list Token * list Token) :=
  match tokens with
  | [] => Next s
  | t :: tokens' =>
      match looped_body t s with
      | Next s' => looped_for tokens' s'
      | Return e s' => Return e s'
      end
  end.

Definition ConvertToRPN_looped (tokens : list Token) : EvaluationError * list Token :=
  match looped_for tokens ([], []) with
  | Return e (_, rpn) => (e, rpn)
  | Next (op_stack, rpn) => drain op_stack rpn
  end.

(** The five binary operators, and [lhs op rhs] for each of them. *)
Definition is_operator (ty : TokenType) : bool :=
  match ty with
  | Add | Sub | Mult | Div | Exp => true
  | _ => false
  end.

Definition apply_operator (ty : TokenType) (lhs rhs : double) : double :=
  match ty with
  | Add => dadd lhs rhs
  | Sub => dsub lhs rhs
  | Mult => dmul lhs rhs
  | Div => ddiv lhs rhs
  | Exp => pow lhs rhs
  | _ => dzero
  end.

(** ** SimpleCalculator::Evaluate (SimpleCalculator.cpp:53-117) *)

(** One iteration of [for (auto& t : rpn)] (lines 72-108).  A stack with
    fewer than two values has no [arg1 :: arg2 :: _] shape; the [switch] has
    no [default], so any other type leaves [arg3 = 0]. *)
Definition Evaluate_body (t : Token) (eval_stack : list double) : Flow (list double) :=
  if bool_decide (type t = Number) then Next (val t :: eval_stack) else
  match eval_stack with
  | arg1 :: arg2 :: eval_stack' =>
      let arg3 :=
        match type t with
        | Add => dadd arg2 arg1
        | Sub => dsub arg2 arg1
        | Mult => dmul arg2 arg1
        | Div => ddiv arg2 arg1
        | Exp => pow arg2 arg1
        | _ => dzero
        end in
      Next (arg3 :: eval_stack')
  | _ => Return NotEnoughInputs eval_stack
  end.

Fixpoint Evaluate_for (rpn : list Token) (eval_stack : list double) : Flow (list double) :=
  match rpn with
  | [] => Next eval_stack
  | t :: rpn' =>
      match Evaluate_body t eval_stack with
      | Next st => Evaluate_for rpn' st
      | Return e st => Return e st
      end
  end.

(** What a call of [Evaluate] does: it returns an error code, having
    assigned [result] or not, or it reads [eval_stack.top()] of an empty
    stack, for which C++ defines no behaviour. *)
Inductive Outcome :=
| Returned (e : EvaluationError) (result : option double)
| TopOfEmptyStack.

(** Lines 111-116. *)
Definition Evaluate_finish (eval_stack : list double) : Outcome :=
  if (1 <? length eval_stack)%nat then Returned TooManyInputs None else
  match eval_stack with
  | top :: _ => Returned OK (Some top)
  | [] => TopOfEmptyStack
  end.

(** Lines 68-116: the evaluation of a postfix sequence. *)
Definition Evaluate_rpn (rpn : list Token) : Outcome :=
  match Evaluate_for rpn [] with
  | Return e _ => Returned e None
  | Next eval_stack => Evaluate_finish eval_stack
  end.

(** The whole call, from the table [ops0] it finds to the table it leaves. *)
Definition Evaluate (ops0 : gmap wchar_t Token) (text : wstring)
  : Outcome * gmap wchar_t Token :=
  let '(error, tokens, ops1) := Tokenize ops0 text in
  if bool_decide (error ≠ OK) then (Returned error None, ops1) else
  let '(error, rpn) := ConvertToRPN tokens in
  if bool_decide (error ≠ OK) then (Returned error None, ops1) else
  (Evaluate_rpn rpn, ops1).

End Calculator.

(** [evaluate(text)] as the driver sees it on the first line it reads: the
    "C" locale and the table as initialised. *)
Definition evaluate `{A : Arith} (uninit : wchar_t -> Token) (text : string) : Outcome :=
  (Evaluate (Loc:=C_locale) uninit Operators (L text)).1.

(** The number that [wcstod] makes of the literal [s], and its token. *)
Definition lit `{A : Arith} (s : string) : double := wcstod (c_str (L s)).
Definition num `{A : Arith} (s : string) : Token := mkToken _ Number (lit s).

(** When a number starts, in the words of the specification: at a decimal
    digit, at a decimal point, or at the subtract symbol immediately followed
    by a digit. *)
Definition starts_number (text : wstring) (i : nat) : bool :=
  let curr := nth i text 0 in
  iswdigit curr || (curr =? 46)
  || ((curr =? 45) && (i + 1 <? length text)%nat && iswdigit (nth (i + 1) text 0)).

(** ** An exact instance of the arithmetic

    Rational numbers in lowest terms stand for the values that the
    expressions of the examples denote; [None] is a value that is not a
    rational number (a division by zero, a power that has no rational
    value).  On literals, sums, differences, products, quotients and integer
    powers this is the mathematical value of the expression. *)

Module Exact.

Definition value := option Q.

Definition lift2 (f : Q -> Q -> Q) (x y : value) : value :=
  match x, y with
  | Some a, Some b => Some (Qred (f a b))
  | _, _ => None
  end.

Definition div (x y : value) : value :=
  match x, y with
  | Some a, Some b => if Qeq_bool b 0 then None else Some (Qred (a / b))
  | _, _ => None
  end.

(** Integer exponents only; [0] to a negative power has no value. *)
Definition power (x y : value) : value :=
  match x, y with
  | Some a, Some b =>
      let e := Qred b in
      if negb (Pos.eqb (Qden e) 1) then None
      else if Qeq_bool a 0 && (Qnum e <? 0)%Z then None
      else Some (Qred (Qpower a (Qnum e)))
  | _, _ => None
  end.

(** The decimal digits at the head of [s], accumulated onto [acc]: the new
    accumulator, the number of digits read and the rest of the string. *)
Fixpoint read_digits (s : wstring) (acc : N) (n : nat) : N * nat * wstring :=
  match s with
  | c :: s' =>
      if iswdigit c then read_digits s' (10 * acc + (c - 48)) (S n)
      else (acc, n, s)
  | [] => (acc, n, s)
  end.

(** [10 ^ n] *)
Definition pow10 (n : nat) : positive := Nat.iter n (Pos.mul 10) 1%positive.

Fixpoint skip_space (s : wstring) : wstring :=
  match s with
  | c :: s' => if C_iswspace c then skip_space s' else s
  | [] => []
  end.

(** [wcstod] on the strings that [Tokenize] can hand to it, which hold no
    letter: leading white space, an optional sign, digits with an optional
    decimal point; the longest such prefix is converted, and a string
    without one converts to zero. *)
Definition strtod (s : wstring) : value :=
  let s1 := skip_space s in
  let '(neg, s2) :=
    match s1 with
    | 45 :: r => (true, r)
    | 43 :: r => (false, r)
    | _ => (false, s1)
    end in
  let '(m1, n1, s3) := read_digits s2 0 0 in
  let '(m2, n2, _) :=
    match s3 with
    | 46 :: r => read_digits r m1 0
    | _ => (m1, 0%nat, s3)
    end in
  if (n1 + n2 =? 0)%nat then Some 0%Q
  else
    let m := Z.of_N m2 in
    Some (Qred (Qmake (if neg then (- m)%Z else m) (pow10 n2))).

Definition arith : Arith :=
  {| double := value;
     dzero := Some 0%Q;
     dadd := lift2 Qplus;
     dsub := lift2 Qminus;
     dmul := lift2 Qmult;
     ddiv := div;
     pow := power;
     wcstod := strtod |}.

(** A node whose memory reads as all-zero bytes: type [Number], value 0. *)
Definition zeroed : wchar_t -> Token (H:=arith) :=
  fun _ => mkToken arith Number (Some 0%Q).

(** The calculator in the "C" locale on exact numbers, started on the
    initial table. *)
Definition run (text : string) : Outcome (A:=arith) :=
  fst (Evaluate (A:=arith) (Loc:=C_locale) zeroed Operators (L text)).

(** The same with the textbook conversion in the place of [ConvertToRPN]. *)
Definition run_looped (text : string) : Outcome (A:=arith) :=
  Evaluate_rpn (A:=arith)
    (ConvertToRPN_looped (A:=arith)
       (Tokenize (A:=arith) (Loc:=C_locale) zeroed Operators (L text)).1.2).2.

(** Tokens over exact numbers. *)
Definition tok (ty : TokenType) : Token (H:=arith) := Token_of (H:=arith) ty.
Definition number (q : Q) : Token (H:=arith) := mkToken arith Number (Some q).

(** The call returned [OK] and assigned [q] to [result]. *)
Definition ok (q : Q) : Outcome (A:=arith) :=
  Returned (A:=arith) OK (Some (Some q : double (Arith:=arith))).

End Exact.

(** ** GetFriendlyEvaluationError (SimpleCalculator.cpp:270-289)

    The [default:] label of the [switch] answers values outside the
    enumeration, which [EvaluationError] here does not have. *)
Definition GetFriendlyEvaluationError (e : EvaluationError) : wstring :=
  match e with
  | OK => L "OK"
  | InvalidCharacters => L "Invalid characters were detected in the expression."
  | UnknownOperator => L "An unknown operator was supplied."
  | MismatchedParantheses => L "Mismatched parantheses were detected!"
  | TooManyInputs =>
      L "Too many inputs for a given operation were supplied, e.g. 1 3 + 4"
  | NotEnoughInputs =>
      L "Not enough inputs for the given expression, e.g.  1 - 2 +"
  end.

(** ** main (main.cpp:7-30) *)

Section Driver.
Context `{A : Arith} `{Loc : Locale}.
Variable uninit : wchar_t -> Token.

(** What the loop writes to [std::wcout]: the prompt, a result followed by
    [endl], or a message followed by [endl]. *)
Inductive Output :=
| Prompt
| PrintResult (result : double)
| PrintMessage (message : wstring).

(** How the program ends: [return code] with the table as the calls left
    it, or in the undefined behaviour of [Evaluate]. *)
Inductive Exit :=
| Exited (code : Z) (ops : gmap wchar_t Token)
| Undefined.

(** The successive values that [std::getline(std::wcin, user_input)] stores
    before the stream reports end of file: the runs of characters that end
    in a newline.  [user_input] holds the characters of the current line
    read so far.  Characters after the last newline are extracted by the
    call that sets [eofbit], after which the loop breaks.  The stream is
    taken to deliver its wide characters without a conversion error. *)
Fixpoint getline (stdin user_input : wstring) : list wstring :=
  match stdin with
  | [] => []
  | c :: stdin' =>
      if c =? 10 then user_input :: getline stdin' []
      else getline stdin' (user_input ++ [c])
  end.

(** The [while (true)] loop over the lines that [getline] delivers. *)
Fixpoint main_loop (lines : list wstring) (ops : gmap wchar_t Token)
  : list Output * Exit :=
  match lines with
  | [] => ([Prompt], Exited 0 ops)
  | user_input :: lines' =>
      if bool_decide (user_input = []) then
        let '(out, exit) := main_loop lines' ops in (Prompt :: out, exit)
      else
        match Evaluate uninit ops user_input with
        | (Returned error result, ops') =>
            let line :=
              if bool_decide (error = OK)
              then PrintResult (default dzero result)
              else PrintMessage (GetFriendlyEvaluationError error) in
            let '(out, exit) := main_loop lines' ops' in
            (Prompt :: line :: out, exit)
        | (TopOfEmptyStack, _) => ([Prompt], Undefined)
        end
  end.

Definition main (stdin : wstring) : list Output * Exit :=
  main_loop (getline stdin []) Operators.

Definition is_prompt (o : Output) : bool :=
  match o with
  | Prompt => true
  | _ => false
  end.

End Driver.

(** ** Notions used to state properties of the stages *)

(** The state with which a loop body or a loop ends, either way. *)
Definition state_of {S : Type} (r : Flow S) : S :=
  match r with
  | Next s => s
  | Return _ s => s
  end.

(** The characters of an unsigned decimal literal. *)
Definition numeric (c : wchar_t) : bool := iswdigit c || (c =? 46).

(** The characters at which [Tokenize] leaves the table as it is: it
    returns at a letter, it does not look up a digit or a decimal point, and
    the look-up of a key adds nothing. *)
Definition quiet `{A : Arith} `{Loc : Locale} (ops : gmap wchar_t Token)
    (c : wchar_t) : Prop :=
  iswalpha c = true \/ iswdigit c = true \/ c = 46 \/ is_Some (ops !! c).

Section Notions.
Context `{A : Arith}.

Definition is_paren (ty : TokenType) : bool :=
  match ty with
  | LParanthesis | RParenthesis => true
  | _ => false
  end.

(** The nesting depth after [tokens], starting at depth [d]; [None] when a
    right parenthesis comes at depth 0. *)
Fixpoint paren_depth (tokens : list Token) (d : nat) : option nat :=
  match tokens with
  | [] => Some d
  | t :: tokens' =>
      match type t with
      | LParanthesis => paren_depth tokens' (S d)
      | RParenthesis =>
          match d with
          | O => None
          | S d' => paren_depth tokens' d'
          end
      | _ => paren_depth tokens' d
      end
  end.

(** The tokens of a sequence that are numbers, and how many are not. *)
Definition numbers (tokens : list Token) : list Token :=
  filter (fun t => type t = Number) tokens.
Definition others (tokens : list Token) : list Token :=
  filter (fun t => type t <> Number) tokens.

(** A sequence without parentheses. *)
Definition without_parens (tokens : list Token) : list Token :=
  filter (fun t => is_paren (type t) = false) tokens.

(** The tokens of an operator stack that are not left parentheses, and
    the number of those that are. *)
Definition operators_on (op_stack : list Token) : list Token :=
  filter (fun o => type o <> LParanthesis) op_stack.
Definition open_parens (op_stack : list Token) : nat :=
  length (filter (fun o => type o = LParanthesis) op_stack).

End Notions.

(** * Properties *)

(** ** The converter *)

Section Converter.
Context `{A : Arith}.

Lemma default_compare_spec (t : Token) (op_stack rpn : list Token) :
  default_compare t op_stack rpn =
  match op_stack with
  | [] => ([], rpn)
  | top_op :: op_stack' =>
      if pop_condition t top_op then (op_stack', rpn ++ [top_op])
      else (op_stack, rpn)
  end.
Proof.
  destruct op_stack as [|top_op op_stack']; [reflexivity|].
  unfold default_compare, pop_condition, push_back.
  destruct (type top_op); destruct (type t); reflexivity.
Qed.

(** C2: an incoming operator other than a parenthesis is compared with the
    top of the operator stack once.  Either nothing is popped, or exactly the
    top is popped into the output (and then the pop condition held for it);
    whatever lies below the top stays on the stack, and the incoming token is
    pushed. *)
Theorem default_case_compares_once (t : Token) (op_stack rpn : list Token) :
  is_operator (type t) = true ->
  exists op_stack' rpn',
    ConvertToRPN_body t (op_stack, rpn) = Next (t :: op_stack', rpn') /\
    ((op_stack' = op_stack /\ rpn' = rpn /\
      forall top_op rest, op_stack = top_op :: rest -> pop_condition t top_op = false) \/
     (exists top_op, op_stack = top_op :: op_stack' /\ rpn' = rpn ++ [top_op] /\
      pop_condition t top_op = true)).
Proof.
  intros Hop.
  assert (Hbody : ConvertToRPN_body t (op_stack, rpn) =
                  let '(st, out) := default_compare t op_stack rpn in Next (t :: st, out)).
  { unfold ConvertToRPN_body. destruct (type t); try discriminate Hop; reflexivity. }
  rewrite Hbody, default_compare_spec.
  destruct op_stack as [|top_op rest].
  - exists [], rpn. split; [reflexivity|]. left. repeat split. intros ? ? [=].
  - destruct (pop_condition t top_op) eqn:Hc.
    + exists rest, (rpn ++ [top_op]). split; [reflexivity|]. right. eauto.
    + exists (top_op :: rest), rpn. split; [reflexivity|]. left.
      repeat split. intros ? ? [= <- _]. exact Hc.
Qed.

(** The right-parenthesis loop on a stack that holds a left parenthesis:
    everything above the first one goes to the output, in stack order. *)
Lemma RParen_while_found (above below rpn : list Token) (lp : Token) :
  Forall (fun o => type o <> LParanthesis) above ->
  type lp = LParanthesis ->
  RParen_while (above ++ lp :: below) rpn = (true, below, rpn ++ above).
Proof.
  intros Habove Hlp. revert rpn.
  induction Habove as [|o above Ho _ IH]; intros rpn; simpl.
  - rewrite bool_decide_eq_false_2 by (intros Hne; apply Hne, Hlp).
    by rewrite app_nil_r.
  - rewrite bool_decide_eq_true_2 by exact Ho.
    rewrite IH. unfold push_back. by rewrite <- app_assoc.
Qed.

Lemma RParen_while_missing (op_stack rpn : list Token) :
  Forall (fun o => type o <> LParanthesis) op_stack ->
  RParen_while op_stack rpn = (false, [], rpn ++ op_stack).
Proof.
  intros Hall. revert rpn.
  induction Hall as [|o op_stack Ho _ IH]; intros rpn; simpl.
  - by rewrite app_nil_r.
  - rewrite bool_decide_eq_true_2 by exact Ho.
    rewrite IH. unfold push_back. by rewrite <- app_assoc.
Qed.

Lemma drain_clean (op_stack rpn : list Token) :
  Forall (fun o => type o <> LParanthesis) op_stack ->
  drain op_stack rpn = (OK, rpn ++ op_stack).
Proof.
  intros Hall. revert rpn.
  induction Hall as [|o op_stack Ho _ IH]; intros rpn; simpl.
  - by rewrite app_nil_r.
  - rewrite bool_decide_eq_true_2 by exact Ho.
    rewrite IH. unfold push_back. by rewrite <- app_assoc.
Qed.

Lemma drain_lparen (op_stack rpn : list Token) :
  Exists (fun o => type o = LParanthesis) op_stack ->
  (drain op_stack rpn).1 = MismatchedParantheses.
Proof.
  intros Hex. revert rpn.
  induction op_stack as [|o op_stack IH]; intros rpn; simpl.
  - by apply Exists_nil in Hex.
  - destruct (decide (type o = LParanthesis)) as [Ho|Ho].
    + by rewrite bool_decide_eq_false_2 by (intros Hne; apply Hne, Ho).
    + rewrite bool_decide_eq_true_2 by exact Ho.
      apply IH. apply Exists_cons in Hex as [Hex|Hex]; [contradiction|exact Hex].
Qed.

End Converter.

(** ** The evaluator *)

Section Evaluator.
Context `{A : Arith}.

Lemma Evaluate_rpn_finish (rpn : list Token) (eval_stack : list double) :
  Evaluate_for rpn [] = Next eval_stack ->
  Evaluate_rpn rpn = Evaluate_finish eval_stack.
Proof. unfold Evaluate_rpn. by intros ->. Qed.

(** Every token that the loop gets past leaves a value on the stack. *)
Lemma Evaluate_body_nonempty (t : Token) (eval_stack st : list double) :
  Evaluate_body t eval_stack = Next st -> st <> [].
Proof.
  unfold Evaluate_body. case_bool_decide; [by intros [= <-]|].
  destruct eval_stack as [|? [|? ?]]; try discriminate. by intros [= <-].
Qed.

Lemma Evaluate_for_nonempty (rpn : list Token) (eval_stack st : list double) :
  Evaluate_for rpn eval_stack = Next st ->
  rpn <> [] \/ eval_stack <> [] -> st <> [].
Proof.
  revert eval_stack. induction rpn as [|t rpn IH]; intros eval_stack; simpl.
  - intros [= <-] [?|?]; done.
  - destruct (Evaluate_body t eval_stack) as [st1|] eqn:Hbody; [|discriminate].
    intros Hfor _. apply (IH st1 Hfor). right.
    by apply (Evaluate_body_nonempty t eval_stack).
Qed.

(** C4: when the loop over a postfix sequence has consumed every token,
    more than one value left on the stack makes [Evaluate] return
    [TooManyInputs], and a single value left is returned as the result.  For
    a sequence that is not empty there is no third case: not more than one
    value left means exactly one.  The empty sequence leaves no value at all,
    and [Evaluate] then reads the top of an empty stack. *)
Theorem Evaluate_final_stack (rpn : list Token) (eval_stack : list double) :
  Evaluate_for rpn [] = Next eval_stack ->
  ((1 < length eval_stack)%nat -> Evaluate_rpn rpn = Returned TooManyInputs None) /\
  (forall v, eval_stack = [v] -> Evaluate_rpn rpn = Returned OK (Some v)) /\
  (rpn <> [] -> ~ (1 < length eval_stack)%nat ->
   exists v, eval_stack = [v] /\ Evaluate_rpn rpn = Returned OK (Some v)) /\
  (rpn = [] -> eval_stack = [] /\ Evaluate_rpn rpn = TopOfEmptyStack).
Proof.
  intros Hloop. rewrite (Evaluate_rpn_finish _ _ Hloop). unfold Evaluate_finish.
  repeat apply conj.
  - intros Hlen. apply Nat.ltb_lt in Hlen. by rewrite Hlen.
  - by intros v ->.
  - intros Hrpn Hlen.
    pose proof (Evaluate_for_nonempty rpn [] eval_stack Hloop (or_introl Hrpn)) as Hne.
    destruct eval_stack as [|v [|? ?]]; [done| |simpl in Hlen; lia].
    by exists v.
  - intros ->. by injection Hloop as <-.
Qed.

Lemma Evaluate_body_short (t : Token) (eval_stack : list double) :
  type t <> Number ->
  (length eval_stack < 2)%nat ->
  Evaluate_body t eval_stack = Return NotEnoughInputs eval_stack.
Proof.
  intros Ht Hlen. unfold Evaluate_body.
  rewrite bool_decide_eq_false_2 by exact Ht.
  destruct eval_stack as [|? [|? ?]]; simpl in Hlen; try reflexivity; lia.
Qed.

Lemma Evaluate_body_binary (t : Token) (rhs lhs : double) (rest : list double) :
  is_operator (type t) = true ->
  Evaluate_body t (rhs :: lhs :: rest) = Next (apply_operator (type t) lhs rhs :: rest).
Proof.
  intros Hop. unfold Evaluate_body, apply_operator.
  destruct (type t); try discriminate Hop; reflexivity.
Qed.

End Evaluator.

(** ** The tokenizer *)

Section Tokenizer.
Context `{A : Arith} `{Loc : Locale}.
Variable uninit : wchar_t -> Token.

Lemma Operators_at_keys (ops : gmap wchar_t Token) (c c' : wchar_t) :
  is_Some (ops !! c') -> is_Some ((Operators_at uninit ops c).2 !! c').
Proof.
  intros Hc'. unfold Operators_at. destruct (ops !! c) eqn:Hc; simpl; [exact Hc'|].
  destruct (decide (c = c')) as [->|Hne].
  - rewrite lookup_insert_eq. eauto.
  - by rewrite lookup_insert_ne.
Qed.

Lemma Tokenize_body_alpha (text : wstring) (i : nat) (s : TokState) :
  iswalpha (nth i text 0) = true ->
  Tokenize_body uninit text i s = Return InvalidCharacters s.
Proof. unfold Tokenize_body. by intros ->. Qed.

(** The two ways in which the body returns. *)
Lemma Tokenize_body_Return (text : wstring) (i : nat) (s s' : TokState)
    (e : EvaluationError) :
  Tokenize_body uninit text i s = Return e s' ->
  (e = InvalidCharacters /\ iswalpha (nth i text 0) = true) \/
  (e = UnknownOperator /\ ~ accepted (ops s) (nth i text 0)).
Proof.
  unfold Tokenize_body, Operators_count, accepted.
  destruct (iswalpha (nth i text 0)) eqn:Halpha; [intros [= <- _]; by left|].
  destruct (parsing_number s); simpl.
  - destruct (iswspace _ || _); [|discriminate].
    destruct (bool_decide _); [|discriminate].
    by destruct (Operators_at _ _ _).
  - destruct (iswdigit (nth i text 0)) eqn:Hdigit; simpl; [discriminate|].
    destruct (N.eqb_spec (nth i text 0) 46) as [|Hpoint]; [discriminate|].
    destruct (Operators_at uninit (ops s) (nth i text 0)) as [op ops1].
    destruct (_ && _); [discriminate|].
    case_bool_decide as Hkey.
    + by destruct (Operators_at _ _ _).
    + destruct (iswspace (nth i text 0)) eqn:Hspace; [discriminate|].
      intros [= <- _]. right. split; [reflexivity|].
      intros [?|[?|[?|[?|?]]]]; congruence.
Qed.

(** Keys are never removed from the table. *)
Lemma Tokenize_body_keys (text : wstring) (i : nat) (s s' : TokState) (c : wchar_t) :
  Tokenize_body uninit text i s = Next s' ->
  is_Some (ops s !! c) -> is_Some (ops s' !! c).
Proof.
  unfold Tokenize_body, Operators_count. intros Hbody Hc.
  destruct (iswalpha _); [discriminate|].
  destruct (parsing_number s); simpl in Hbody.
  - destruct (iswspace _ || _); [|by injection Hbody as <-].
    case_bool_decide as Hkey.
    + pose proof (Operators_at_keys (ops s) (nth i text 0) c Hc) as Hk.
      destruct (Operators_at _ _ _). by injection Hbody as <-.
    + by injection Hbody as <-.
  - destruct (iswdigit _ || _); [by injection Hbody as <-|].
    pose proof (Operators_at_keys (ops s) (nth i text 0) c Hc) as Hk.
    destruct (Operators_at uninit (ops s) (nth i text 0)) as [op ops1].
    simpl in Hk.
    destruct (_ && _); [by injection Hbody as <-|].
    case_bool_decide as Hkey.
    + pose proof (Operators_at_keys ops1 (nth i text 0) c Hk) as Hk'.
      destruct (Operators_at _ _ _). by injection Hbody as <-.
    + destruct (iswspace _); [by injection Hbody as <-|discriminate].
Qed.

Lemma accepted_mono (ops ops' : gmap wchar_t Token) (c : wchar_t) :
  (forall c', is_Some (ops !! c') -> is_Some (ops' !! c')) ->
  accepted ops c -> accepted ops' c.
Proof. unfold accepted. intros Hsub. intuition auto. Qed.

(** A letter anywhere among the indices still to visit: the loop returns. *)
Lemma Tokenize_for_alpha (text : wstring) (idx : list nat) (s : TokState) :
  Exists (fun i => iswalpha (nth i text 0) = true) idx ->
  exists e s', Tokenize_for uninit text idx s = Return e s'
               /\ (e = InvalidCharacters \/ e = UnknownOperator).
Proof.
  intros Hex. revert s.
  induction idx as [|i idx IH]; intros s; [by apply Exists_nil in Hex|].
  simpl. destruct (Tokenize_body uninit text i s) as [s1|e s1] eqn:Hbody.
  - apply Exists_cons in Hex as [Hi|Hex]; [|by apply IH].
    by rewrite Tokenize_body_alpha in Hbody.
  - exists e, s1. split; [reflexivity|].
    apply Tokenize_body_Return in Hbody as [[-> _]|[-> _]]; auto.
Qed.

(** Nothing but accepted characters before the letter: the loop reaches it. *)
Lemma Tokenize_for_reaches_alpha (text : wstring) (before after : list nat)
    (j : nat) (s : TokState) :
  Forall (fun i => accepted (ops s) (nth i text 0)) before ->
  iswalpha (nth j text 0) = true ->
  exists s', Tokenize_for uninit text (before ++ j :: after) s
             = Return InvalidCharacters s'.
Proof.
  intros Hbefore Hj. revert s Hbefore.
  induction before as [|i before IH]; intros s Hbefore; simpl.
  - rewrite Tokenize_body_alpha by exact Hj. eauto.
  - apply Forall_cons in Hbefore as [Hi Hbefore].
    destruct (Tokenize_body uninit text i s) as [s1|e s1] eqn:Hbody.
    + apply IH. eapply Forall_impl; [exact Hbefore|].
      intros k. apply accepted_mono. intros c'. by apply (Tokenize_body_keys text i s).
    + apply Tokenize_body_Return in Hbody as [[-> _]|[_ Hrej]]; [eauto|contradiction].
Qed.

(** In the table as initialised, the minus sign and no other key holds a
    [Sub] token. *)
Lemma Operators_initial_Sub (c : wchar_t) (t : Token) :
  Operators !! c = Some t -> type t = Sub <-> c = 45.
Proof.
  unfold Operators.
  repeat (rewrite lookup_insert; case_decide;
          [subst c; intros [= <-]; simpl; split; intros; (reflexivity || discriminate)|]).
  by rewrite lookup_empty.
Qed.

Lemma table_reached_initial : table_reached uninit Operators.
Proof. intros c. by left. Qed.

(** A look-up keeps the table among the reached ones. *)
Lemma Operators_at_reached (ops : gmap wchar_t Token) (c : wchar_t) :
  table_reached uninit ops -> table_reached uninit (Operators_at uninit ops c).2.
Proof.
  intros Hreach. unfold Operators_at.
  destruct (ops !! c) eqn:Hc; simpl; [exact Hreach|].
  intros c'. destruct (decide (c = c')) as [<-|Hne].
  - right. rewrite lookup_insert_eq. split; [|reflexivity].
    destruct (Hreach c) as [Heq|[_ Hsome]]; congruence.
  - rewrite lookup_insert_ne by exact Hne. apply Hreach.
Qed.

(** In a reached table a look-up yields a [Sub] token for the minus sign
    and, among the other characters, only for one that is not an initial key
    and whose node reads as [Sub]. *)
Lemma Operators_at_Sub (ops : gmap wchar_t Token) (c : wchar_t) :
  table_reached uninit ops ->
  (Operators !! c = None -> type (uninit c) <> Sub) ->
  type (Operators_at uninit ops c).1 = Sub <-> c = 45.
Proof.
  intros Hreach Hjunk.
  assert (Hfresh : Operators !! c = None -> type (uninit c) = Sub <-> c = 45).
  { intros Hnone. split; [intros Hty; by destruct (Hjunk Hnone)|].
    intros ->. vm_compute in Hnone. discriminate Hnone. }
  unfold Operators_at. destruct (Hreach c) as [Heq|[Hnone Hsome]].
  - rewrite Heq. destruct (Operators !! c) as [t|] eqn:Hc; simpl.
    + by apply Operators_initial_Sub.
    + by apply Hfresh.
  - rewrite Hsome. simpl. by apply Hfresh.
Qed.

Lemma Tokenize_body_reached (text : wstring) (i : nat) (s s' : TokState)
    (r : Flow TokState) :
  table_reached uninit (ops s) ->
  Tokenize_body uninit text i s = r ->
  (r = Next s' \/ exists e, r = Return e s') ->
  table_reached uninit (ops s').
Proof.
  intros Hreach Hbody Hr.
  unfold Tokenize_body in Hbody.
  pose proof (Operators_at_reached (ops s) (nth i text 0) Hreach) as H1.
  destruct (Operators_at uninit (ops s) (nth i text 0)) as [op ops1] eqn:Hat1.
  simpl in H1.
  pose proof (Operators_at_reached ops1 (nth i text 0) H1) as H2.
  destruct (Operators_at uninit ops1 (nth i text 0)) as [op' ops2] eqn:Hat2.
  simpl in H2.
  assert (Hcases : ops s' = ops s \/ ops s' = ops1 \/ ops s' = ops2).
  { subst r. destruct (iswalpha _); [destruct Hr as [?|[? [= _ <-]]]; by auto|].
    destruct (parsing_number s); simpl in Hr.
    - destruct (iswspace _ || _).
      + destruct (Operators_count _ _);
          destruct Hr as [[= <-]|[? ?]]; simpl; by auto.
      + destruct Hr as [[= <-]|[? ?]]; by auto.
    - destruct (iswdigit _ || _); [destruct Hr as [[= <-]|[? ?]]; simpl; by auto|].
      destruct (_ && _); [destruct Hr as [[= <-]|[? ?]]; simpl; by auto|].
      destruct (Operators_count _ _); [destruct Hr as [[= <-]|[? ?]]; simpl; by auto|].
      destruct (iswspace _); [destruct Hr as [[= <-]|[? ?]]; simpl; by auto|].
      destruct Hr as [?|[? [= _ <-]]]; simpl; by auto. }
  destruct Hcases as [->|[->| ->]]; assumption.
Qed.

Lemma Tokenize_for_reached (text : wstring) (idx : list nat) (s s' : TokState) :
  table_reached uninit (ops s) ->
  (Tokenize_for uninit text idx s = Next s'
   \/ exists e, Tokenize_for uninit text idx s = Return e s') ->
  table_reached uninit (ops s').
Proof.
  revert s. induction idx as [|i idx IH]; intros s Hreach; simpl.
  - by intros [[= <-]|[? ?]].
  - destruct (Tokenize_body uninit text i s) as [s1|e1 s1] eqn:Hbody.
    + apply IH. eapply Tokenize_body_reached; eauto.
    + intros [?|[e [= _ <-]]]; [done|].
      eapply Tokenize_body_reached; eauto.
Qed.

(** Every call of [Tokenize] leaves a reached table reached; so every table
    that the program ever holds is a reached one. *)
Lemma Tokenize_reached (ops0 : gmap wchar_t Token) (text : wstring) :
  table_reached uninit ops0 -> table_reached uninit (Tokenize uninit ops0 text).2.
Proof.
  intros Hreach. unfold Tokenize.
  destruct (Tokenize_for _ _ _ _) as [s|e s] eqn:Hfor.
  - assert (table_reached uninit (ops s))
      by (eapply Tokenize_for_reached; [|left; exact Hfor]; exact Hreach).
    by destruct (parsing_number s).
  - simpl. eapply Tokenize_for_reached; [|right; eexists; exact Hfor]. exact Hreach.
Qed.

(** Why the look-up matters: were the node made for [#] to read as [Sub],
    the scanner would start a number at [#] when a digit follows. *)
Remark uninitialised_Sub_starts_number :
  type (uninit 35) = Sub ->
  (Tokenize (Loc:=C_locale) uninit Operators (L "#5")).1 = (OK, [num "#5"]).
Proof.
  intros Hjunk. vm_compute.
  destruct (uninit 35) as [ty v]. simpl in Hjunk. subst ty. reflexivity.
Qed.

Lemma Tokenize_error (ops0 : gmap wchar_t Token) (text : wstring)
    (e : EvaluationError) (s : TokState) :
  Tokenize_for uninit text (seq 0 (length text)) (mkTokState false 0%nat [] ops0)
  = Return e s ->
  (Tokenize uninit ops0 text).1.1 = e.
Proof. unfold Tokenize. by intros ->. Qed.

(** C6, as amended: tokenizing a string that contains a letter never
    succeeds.  It fails with [InvalidCharacters] or, when a character before
    the letter is rejected first, with [UnknownOperator]; it fails with
    [InvalidCharacters] whenever every character before the letter is itself
    a letter, a digit, a decimal point, white space or a key of the operator
    table. *)
Theorem Tokenize_letter (ops0 : gmap wchar_t Token) (before after : wstring)
    (c : wchar_t) :
  iswalpha c = true ->
  ((Tokenize uninit ops0 (before ++ c :: after)).1.1 = InvalidCharacters \/
   (Tokenize uninit ops0 (before ++ c :: after)).1.1 = UnknownOperator) /\
  (Forall (accepted ops0) before ->
   (Tokenize uninit ops0 (before ++ c :: after)).1.1 = InvalidCharacters).
Proof.
  intros Hc. set (text := before ++ c :: after).
  assert (Hidx : seq 0 (length text)
                 = seq 0 (length before) ++ length before :: seq (S (length before)) (length after)).
  { unfold text. rewrite length_app. simpl length.
    by rewrite seq_app, Nat.add_0_l, <- cons_seq. }
  assert (Hnth : nth (length before) text 0 = c) by apply nth_middle.
  split.
  - destruct (Tokenize_for_alpha text (seq 0 (length text))
                (mkTokState false 0%nat [] ops0)) as (e & s & Hfor & He).
    { rewrite Hidx. apply Exists_app. right. apply Exists_cons_hd. by rewrite Hnth. }
    by rewrite (Tokenize_error _ _ _ _ Hfor).
  - intros Hbefore.
    destruct (Tokenize_for_reaches_alpha text (seq 0 (length before))
                (seq (S (length before)) (length after)) (length before)
                (mkTokState false 0%nat [] ops0)) as (s & Hfor).
    + apply Forall_forall. intros i Hi. apply elem_of_seq in Hi. simpl.
      unfold text. rewrite app_nth1 by lia.
      apply (proj1 (Forall_forall _ _) Hbefore), list_elem_of_In, nth_In. lia.
    + by rewrite Hnth.
    + rewrite <- Hidx in Hfor. by rewrite (Tokenize_error _ _ _ _ Hfor).
Qed.

(** The rule by which a number starts, under an assumption: outside a
    number and at a character that is not a letter, the scanner starts a
    number (and records where) exactly when the character is a decimal
    digit, a decimal point, or the subtract symbol immediately followed by a
    digit, in every table that the program can reach, for each of the seven
    initial keys and for every other character whose default-constructed
    token is not read back as [Sub].  On the first call, ["3 - -2"] gives
    the difference of the literals [3] and [-2], which is 5. *)
Theorem Tokenize_starts_number (text : wstring) (i : nat) (s : TokState) :
  table_reached uninit (ops s) ->
  parsing_number s = false ->
  iswalpha (nth i text 0) = false ->
  (Operators !! nth i text 0 = None -> type (uninit (nth i text 0)) <> Sub) ->
  ((exists s', Tokenize_body uninit text i s = Next s'
               /\ parsing_number s' = true /\ start_index s' = i)
   <-> starts_number text i = true)
  /\ (Tokenize (Loc:=C_locale) uninit Operators (L "3 - -2")).1
     = (OK, [num "3"; Token_of Sub; num "-2"])
  /\ evaluate uninit "3 - -2" = Returned OK (Some (dsub (lit "3") (lit "-2")))
  /\ Exact.run "3 - -2" = Exact.ok 5.
Proof.
  intros Hreach Hstate Halpha Hjunk.
  pose proof (Operators_at_Sub (ops s) (nth i text 0) Hreach Hjunk) as Hsub.
  split.
  - unfold Tokenize_body, starts_number. rewrite Halpha, Hstate. simpl negb. cbv iota.
    destruct (iswdigit (nth i text 0) || (nth i text 0 =? 46)) eqn:Hfirst.
    { simpl. split; [reflexivity|]. intros _. eexists. split; [reflexivity|]. by split. }
    simpl orb.
    destruct (Operators_at uninit (ops s) (nth i text 0)) as [op ops1] eqn:Hat.
    simpl in Hsub.
    assert (Hminus : bool_decide (type op = Sub) = (nth i text 0 =? 45)).
    { destruct (N.eqb_spec (nth i text 0) 45) as [H45|H45].
      - apply bool_decide_eq_true_2, Hsub, H45.
      - apply bool_decide_eq_false_2. intros Hty. apply H45, Hsub, Hty. }
    rewrite Hminus.
    destruct ((nth i text 0 =? 45) && (i + 1 <? length text)%nat
              && iswdigit (nth (i + 1) text 0)).
    { split; [reflexivity|]. intros _. eexists. split; [reflexivity|]. by split. }
    split; [|discriminate].
    intros (s' & Hbody & Hparsing & _).
    destruct (Operators_count (ops s) (nth i text 0)).
    + destruct (Operators_at uninit ops1 (nth i text 0)).
      injection Hbody as <-. discriminate Hparsing.
    + destruct (iswspace (nth i text 0)); [|discriminate Hbody].
      injection Hbody as <-. discriminate Hparsing.
  - assert (Htok : (Tokenize (Loc:=C_locale) uninit Operators (L "3 - -2")).1
                   = (OK, [num "3"; Token_of Sub; num "-2"])).
    { vm_compute. destruct (uninit 32) as [[] ?]; vm_compute; reflexivity. }
    split; [exact Htok|]. split; [|by vm_compute].
    vm_compute. destruct (uninit 32) as [[] ?]; vm_compute; reflexivity.
Qed.

End Tokenizer.

(** ** The stages together *)

Section Pipeline.
Context `{A : Arith}.
Variable uninit : wchar_t -> Token.

Lemma ConvertToRPN_for_app (tokens1 tokens2 : list Token) (s s1 : list Token * list Token) :
  ConvertToRPN_for tokens1 s = Next s1 ->
  ConvertToRPN_for (tokens1 ++ tokens2) s = ConvertToRPN_for tokens2 s1.
Proof.
  revert s. induction tokens1 as [|t tokens1 IH]; intros s; simpl.
  - by intros [= ->].
  - destruct (ConvertToRPN_body t s); [apply IH|discriminate].
Qed.

(** C1, on the input ["1-2*3-4"]: the tokens are right, but when the second
    minus arrives the stack holds [*] above [-] and only [*] is popped.  The
    output is [1 2 3 * 4 - -] where the textbook conversion yields
    [1 2 3 * - 4 -], and the value returned is [1-((2*3)-4)], which is [-1],
    where [(1-(2*3))-4] is [-9]. *)
Theorem chained_operators_underpop :
  let tokens := [num "1"; Token_of Sub; num "2"; Token_of Mult; num "3";
                 Token_of Sub; num "4"] in
  (Tokenize (Loc:=C_locale) uninit Operators (L "1-2*3-4")).1 = (OK, tokens)
  /\ ConvertToRPN tokens
     = (OK, [num "1"; num "2"; num "3"; Token_of Mult; num "4";
             Token_of Sub; Token_of Sub])
  /\ ConvertToRPN_looped tokens
     = (OK, [num "1"; num "2"; num "3"; Token_of Mult; Token_of Sub;
             num "4"; Token_of Sub])
  /\ evaluate uninit "1-2*3-4"
     = Returned OK (Some (dsub (lit "1") (dsub (dmul (lit "2") (lit "3")) (lit "4"))))
  /\ Evaluate_rpn (ConvertToRPN_looped tokens).2
     = Returned OK (Some (dsub (dsub (lit "1") (dmul (lit "2") (lit "3"))) (lit "4")))
  /\ Exact.run "1-2*3-4" = Exact.ok (-1)
  /\ Exact.run_looped "1-2*3-4" = Exact.ok (-9).
Proof. cbv zeta. repeat split; by vm_compute. Qed.

(** The default case on a stack that holds [*] above [+]: an incoming [-]
    pops [*] and is pushed above [+], which the textbook loop would pop as
    well. *)
Example default_case_leaves_second_operator :
  ConvertToRPN_body (Token_of Sub) ([Token_of Mult; Token_of Add], [])
  = Next ([Token_of Sub; Token_of Add], [Token_of Mult])
  /\ looped_body (Token_of Sub) ([Token_of Mult; Token_of Add], [])
     = Next ([Token_of Sub], [Token_of Mult; Token_of Add]).
Proof. split; by vm_compute. Qed.

(** A minus sign directly before a digit is read as the sign of a literal
    wherever the scanner is outside a number, also after an operand. *)
Example minus_after_operand :
  (Tokenize (Loc:=C_locale) uninit Operators (L "(1+2)-3")).1
  = (OK, [Token_of LParanthesis; num "1"; Token_of Add; num "2";
          Token_of RParenthesis; num "-3"])
  /\ evaluate uninit "(1+2)-3" = Returned TooManyInputs None.
Proof. split; by vm_compute. Qed.

(** C3, on the inputs ["()"] and [" "]: both stages succeed, the postfix
    sequence is empty, the loop leaves the stack empty, and [Evaluate] goes
    on to read the top of that empty stack. *)
Theorem empty_postfix_reads_empty_stack :
  (Tokenize (Loc:=C_locale) uninit Operators (L "()")).1
  = (OK, [Token_of LParanthesis; Token_of RParenthesis])
  /\ ConvertToRPN [Token_of LParanthesis; Token_of RParenthesis] = (OK, [])
  /\ Evaluate_for [] [] = Next []
  /\ evaluate uninit "()" = TopOfEmptyStack
  /\ (Tokenize (Loc:=C_locale) uninit Operators (L " ")).1 = (OK, [])
  /\ evaluate uninit " " = TopOfEmptyStack.
Proof.
  repeat split; try (vm_compute; reflexivity);
    vm_compute; destruct (uninit 32) as [[] ?]; reflexivity.
Qed.

(** C5: at an operator token the evaluator fails with [NotEnoughInputs] when
    fewer than two values are on the stack; otherwise the top is the right
    operand, the value below it the left operand, and both are replaced by
    [lhs op rhs] ([lhs - rhs] for [Sub], [lhs / rhs] for [Div]).  The
    expression ["+"] fails with [NotEnoughInputs]. *)
Theorem Evaluate_operator_step (t : Token) (eval_stack : list double) :
  is_operator (type t) = true ->
  ((length eval_stack < 2)%nat ->
   Evaluate_body t eval_stack = Return NotEnoughInputs eval_stack)
  /\ (forall rhs lhs rest, eval_stack = rhs :: lhs :: rest ->
      Evaluate_body t eval_stack = Next (apply_operator (type t) lhs rhs :: rest)
      /\ (type t = Sub -> Evaluate_body t eval_stack = Next (dsub lhs rhs :: rest))
      /\ (type t = Div -> Evaluate_body t eval_stack = Next (ddiv lhs rhs :: rest)))
  /\ evaluate uninit "+" = Returned NotEnoughInputs None.
Proof.
  intros Hop. split; [|split].
  - apply Evaluate_body_short. by destruct (type t).
  - intros rhs lhs rest ->. rewrite Evaluate_body_binary by exact Hop.
    split; [reflexivity|]. by split; intros ->.
  - by vm_compute.
Qed.

(** C7: at a right parenthesis the converter moves the operators above the
    nearest left parenthesis to the output and drops that parenthesis; with
    no left parenthesis on the stack it fails with [MismatchedParantheses],
    and so does the whole conversion.  After the last token, a left
    parenthesis still on the stack makes the drain fail with
    [MismatchedParantheses]; without one, the stack is appended to the
    output.  The expression ["(1+2"] fails with [MismatchedParantheses]. *)
Theorem ConvertToRPN_parentheses :
  (forall t above lp below rpn,
      type t = RParenthesis ->
      Forall (fun o => type o <> LParanthesis) above ->
      type lp = LParanthesis ->
      ConvertToRPN_body t (above ++ lp :: below, rpn) = Next (below, rpn ++ above))
  /\ (forall tokens1 t tokens2 op_stack rpn,
      ConvertToRPN_for tokens1 ([], []) = Next (op_stack, rpn) ->
      type t = RParenthesis ->
      Forall (fun o => type o <> LParanthesis) op_stack ->
      ConvertToRPN_body t (op_stack, rpn)
      = Return MismatchedParantheses ([], rpn ++ op_stack)
      /\ (ConvertToRPN (tokens1 ++ t :: tokens2)).1 = MismatchedParantheses)
  /\ (forall tokens op_stack rpn,
      ConvertToRPN_for tokens ([], []) = Next (op_stack, rpn) ->
      (Exists (fun o => type o = LParanthesis) op_stack ->
       (ConvertToRPN tokens).1 = MismatchedParantheses)
      /\ (Forall (fun o => type o <> LParanthesis) op_stack ->
          ConvertToRPN tokens = (OK, rpn ++ op_stack)))
  /\ evaluate uninit "(1+2" = Returned MismatchedParantheses None.
Proof.
  repeat apply conj.
  - intros t above lp below rpn Ht Habove Hlp.
    unfold ConvertToRPN_body. rewrite Ht.
    by rewrite RParen_while_found.
  - intros tokens1 t tokens2 op_stack rpn Hfor Ht Hstack.
    assert (Hbody : ConvertToRPN_body t (op_stack, rpn)
                    = Return MismatchedParantheses ([], rpn ++ op_stack)).
    { unfold ConvertToRPN_body. rewrite Ht. by rewrite RParen_while_missing. }
    split; [exact Hbody|].
    unfold ConvertToRPN. rewrite (ConvertToRPN_for_app _ _ _ _ Hfor).
    cbn [ConvertToRPN_for]. by rewrite Hbody.
  - intros tokens op_stack rpn Hfor. unfold ConvertToRPN. rewrite Hfor. split.
    + apply drain_lparen.
    + apply drain_clean.
  - by vm_compute.
Qed.

(** C9: ["2^3^2"] is converted to [2 3 2 ^ ^] and evaluates to
    [pow(2, pow(3, 2))]: the second [^] does not pop the first, since [Exp]
    is right-associative and its precedence is not below its own.  In exact
    arithmetic the value is 512. *)
Theorem exponentiation_groups_right :
  OperatorPrecendence Add = 0%Z /\ OperatorPrecendence Sub = 0%Z
  /\ OperatorPrecendence Mult = 1%Z /\ OperatorPrecendence Div = 1%Z
  /\ OperatorPrecendence Exp = 2%Z
  /\ pop_condition (Token_of Exp) (Token_of Exp) = false
  /\ (Tokenize (Loc:=C_locale) uninit Operators (L "2^3^2")).1
     = (OK, [num "2"; Token_of Exp; num "3"; Token_of Exp; num "2"])
  /\ ConvertToRPN [num "2"; Token_of Exp; num "3"; Token_of Exp; num "2"]
     = (OK, [num "2"; num "3"; num "2"; Token_of Exp; Token_of Exp])
  /\ evaluate uninit "2^3^2"
     = Returned OK (Some (pow (lit "2") (pow (lit "3") (lit "2"))))
  /\ Exact.run "2^3^2" = Exact.ok 512.
Proof. repeat split; by vm_compute. Qed.

(** C10, on the input ["1 + 2"] evaluated twice: the first call returns
    [OK], and its look-up of the blank in [Operators] leaves the blank in the
    table as a key.  The second call then takes the blank for an operator
    character and does not return [OK]. *)
Theorem Evaluate_twice_differs :
  let first := Evaluate (Loc:=C_locale) uninit Operators (L "1 + 2") in
  let second := Evaluate (Loc:=C_locale) uninit first.2 (L "1 + 2") in
  (exists v, first.1 = Returned OK (Some v))
  /\ Operators !! 32 = None
  /\ first.2 !! 32 = Some (uninit 32)
  /\ (exists e, e <> OK /\ second.1 = Returned e None).
Proof.
  cbv zeta. repeat apply conj.
  - vm_compute. destruct (uninit 32) as [[] ?]; vm_compute; eauto.
  - by vm_compute.
  - vm_compute. destruct (uninit 32) as [[] ?]; reflexivity.
  - vm_compute. destruct (uninit 32) as [[] ?]; vm_compute;
      (eexists; split; [|reflexivity]; discriminate).
Qed.

(** C8, on the inputs [" 5"], ["#5"] and ["3 - -2"]: at a character that is
    not a key, the test for the subtract symbol reads the [type] of the
    token that [Operators[curr]] has just default-constructed.  At the blank
    of [" 5"], which is no digit, point or subtract symbol, a number starts
    exactly if that token reads as [Sub]; ["#5"] is then tokenized with [OK]
    instead of failing with [UnknownOperator].  And ["3 - -2"] returns [OK]
    with the difference of the literals on the first call, but not on the
    second, where the blank has become a key of the table. *)
Theorem number_start_reads_uninitialised :
  starts_number (L " 5") 0 = false
  /\ (exists s',
        Tokenize_body (Loc:=C_locale) uninit (L " 5") 0
          (mkTokState false 0%nat [] Operators) = Next s'
        /\ parsing_number s' = bool_decide (type (uninit 32) = Sub))
  /\ (Tokenize (Loc:=C_locale) uninit Operators (L " 5")).1
     = (OK, [if bool_decide (type (uninit 32) = Sub) then num " 5" else num "5"])
  /\ (Tokenize (Loc:=C_locale) uninit Operators (L "#5")).1.1
     = (if bool_decide (type (uninit 35) = Sub) then OK else UnknownOperator)
  /\ (Evaluate (Loc:=C_locale) uninit Operators (L "3 - -2")).1
     = Returned OK (Some (dsub (lit "3") (lit "-2")))
  /\ (exists e, e <> OK
        /\ (Evaluate (Loc:=C_locale) uninit
              (Evaluate (Loc:=C_locale) uninit Operators (L "3 - -2")).2
              (L "3 - -2")).1 = Returned e None).
Proof.
  repeat apply conj.
  - reflexivity.
  - vm_compute. destruct (uninit 32) as [[] ?]; (eexists; split; reflexivity).
  - vm_compute. destruct (uninit 32) as [[] ?]; reflexivity.
  - vm_compute. destruct (uninit 35) as [[] ?]; reflexivity.
  - vm_compute. destruct (uninit 32) as [[] ?]; reflexivity.
  - vm_compute. destruct (uninit 32) as [[] ?]; vm_compute;
      (eexists; split; [|reflexivity]; discriminate).
Qed.

End Pipeline.

(** ** Instances of the theorems on exact numbers *)

Lemma default_case_compares_once_witness :
  is_operator (type (Exact.tok Sub)) = true /\
  exists op_stack' rpn',
    ConvertToRPN_body (Exact.tok Sub) ([Exact.tok Mult; Exact.tok Add], [Exact.number 1])
    = Next (Exact.tok Sub :: op_stack', rpn') /\
    ((op_stack' = [Exact.tok Mult; Exact.tok Add] /\ rpn' = [Exact.number 1] /\
      forall top_op rest, [Exact.tok Mult; Exact.tok Add] = top_op :: rest ->
                          pop_condition (Exact.tok Sub) top_op = false) \/
     (exists top_op, [Exact.tok Mult; Exact.tok Add] = top_op :: op_stack' /\
                     rpn' = [Exact.number 1] ++ [top_op] /\
                     pop_condition (Exact.tok Sub) top_op = true)).
Proof.
  split; [reflexivity|].
  apply (default_case_compares_once (A:=Exact.arith) (Exact.tok Sub)). reflexivity.
Defined.

Lemma Evaluate_final_stack_witness :
  Evaluate_for [Exact.number 1; Exact.number 3] [] = Next [Some 3%Q; Some 1%Q]
  /\ Evaluate_rpn [Exact.number 1; Exact.number 3] = Returned TooManyInputs None
  /\ Evaluate_for [Exact.number 7] [] = Next [Some 7%Q]
  /\ Evaluate_rpn [Exact.number 7] = Exact.ok 7
  /\ Evaluate_for (A:=Exact.arith) [] [] = Next []
  /\ Evaluate_rpn (A:=Exact.arith) [] = TopOfEmptyStack.
Proof.
  split; [reflexivity|]. split; [|split; [reflexivity|split; [|split; [reflexivity|]]]];
    [| |apply (proj2 (proj2 (proj2 (Evaluate_final_stack (A:=Exact.arith)
                                      [] [] eq_refl))) eq_refl)].
  - apply (proj1 (Evaluate_final_stack (A:=Exact.arith)
                    [Exact.number 1; Exact.number 3] [Some 3%Q; Some 1%Q] eq_refl)).
    simpl. lia.
  - apply (proj1 (proj2 (Evaluate_final_stack (A:=Exact.arith)
                           [Exact.number 7] [Some 7%Q] eq_refl)) (Some 7%Q)).
    reflexivity.
Defined.

Lemma Evaluate_operator_step_witness :
  is_operator (type (Exact.tok Sub)) = true
  /\ Evaluate_body (Exact.tok Sub) [Some 2%Q; Some 5%Q] = Next [Some 3%Q]
  /\ Evaluate_body (Exact.tok Sub) [Some 2%Q] = Return NotEnoughInputs [Some 2%Q].
Proof.
  split; [reflexivity|]. split.
  - apply (proj1 (proj2 (Evaluate_operator_step (A:=Exact.arith) Exact.zeroed
                           (Exact.tok Sub) [Some 2%Q; Some 5%Q] eq_refl))
             (Some 2%Q) (Some 5%Q) [] eq_refl).
    reflexivity.
  - apply (proj1 (Evaluate_operator_step (A:=Exact.arith) Exact.zeroed
                    (Exact.tok Sub) [Some 2%Q] eq_refl)).
    simpl. lia.
Defined.

Lemma Tokenize_letter_witness :
  C_iswalpha 97 = true
  /\ Forall (accepted (Loc:=C_locale) (Operators (A:=Exact.arith))) (L "1+ ")
  /\ (Tokenize (A:=Exact.arith) (Loc:=C_locale) Exact.zeroed Operators
        (L "1+ " ++ 97 :: L "2")).1.1 = InvalidCharacters.
Proof.
  assert (Hacc : Forall (accepted (Loc:=C_locale) (Operators (A:=Exact.arith))) (L "1+ ")).
  { unfold accepted.
    constructor; [|constructor; [|constructor; [|constructor]]].
    - right. left. reflexivity.
    - right. right. right. right. vm_compute. eauto.
    - right. right. right. left. reflexivity. }
  split; [reflexivity|]. split; [exact Hacc|].
  exact (proj2 (Tokenize_letter (A:=Exact.arith) (Loc:=C_locale) Exact.zeroed
                  Operators (L "1+ ") (L "2") 97 eq_refl) Hacc).
Defined.

(** The claim of C6 as it stands fails on ["#a"]: the string holds the letter
    [a], and the scanner returns at [#] with [UnknownOperator]. *)
Lemma unknown_character_before_letter :
  C_iswalpha 97 = true
  /\ In 97 (L "#a")
  /\ (Tokenize (A:=Exact.arith) (Loc:=C_locale) Exact.zeroed Operators (L "#a")).1.1
     = UnknownOperator
  /\ (Tokenize (A:=Exact.arith) (Loc:=C_locale) Exact.zeroed Operators (L "#a")).1.1
     <> InvalidCharacters.
Proof.
  split; [reflexivity|]. split; [right; left; reflexivity|].
  split; [by vm_compute|]. vm_compute. discriminate.
Defined.

Lemma ConvertToRPN_parentheses_witness :
  type (Exact.tok RParenthesis) = RParenthesis
  /\ Forall (fun o => type o <> LParanthesis) [Exact.tok Add]
  /\ type (Exact.tok LParanthesis) = LParanthesis
  /\ ConvertToRPN_body (Exact.tok RParenthesis)
       ([Exact.tok Add] ++ Exact.tok LParanthesis :: [Exact.tok Mult],
        [Exact.number 1; Exact.number 2])
     = Next ([Exact.tok Mult], [Exact.number 1; Exact.number 2] ++ [Exact.tok Add]).
Proof.
  assert (Habove : Forall (fun o => type o <> LParanthesis) [Exact.tok Add])
    by (repeat constructor; discriminate).
  split; [reflexivity|]. split; [exact Habove|]. split; [reflexivity|].
  exact (proj1 (ConvertToRPN_parentheses (A:=Exact.arith) Exact.zeroed)
           (Exact.tok RParenthesis) [Exact.tok Add] (Exact.tok LParanthesis)
           [Exact.tok Mult] [Exact.number 1; Exact.number 2] eq_refl Habove eq_refl).
Defined.

Lemma Tokenize_starts_number_witness :
  starts_number (L "3 - -2") 4 = true
  /\ exists s',
       Tokenize_body (A:=Exact.arith) (Loc:=C_locale) Exact.zeroed (L "3 - -2") 4
         (mkTokState false 0%nat [Exact.number 3; Exact.tok Sub] Operators) = Next s'
       /\ parsing_number s' = true /\ start_index s' = 4%nat.
Proof.
  split; [reflexivity|].
  apply (proj1 (Tokenize_starts_number (A:=Exact.arith) (Loc:=C_locale) Exact.zeroed
                  (L "3 - -2") 4
                  (mkTokState false 0%nat [Exact.number 3; Exact.tok Sub] Operators)
                  ltac:(intros c; left; reflexivity) eq_refl eq_refl
                  ltac:(vm_compute; discriminate))).
  reflexivity.
Defined.

(** * Further properties of the code *)

(** ** Tokenize: the table *)

Section TokenizerTable.
Context `{A : Arith} `{Loc : Locale}.
Variable uninit : wchar_t -> Token.

Lemma Operators_at_subseteq (ops : gmap wchar_t Token) (c : wchar_t) :
  ops ⊆ (Operators_at uninit ops c).2.
Proof.
  unfold Operators_at. destruct (ops !! c) eqn:Hc; simpl; [done|].
  by apply insert_subseteq.
Qed.

Lemma Operators_at_key (ops : gmap wchar_t Token) (c : wchar_t) :
  is_Some (ops !! c) -> (Operators_at uninit ops c).2 = ops.
Proof. intros [t Ht]. unfold Operators_at. by rewrite Ht. Qed.

(** One pass through the body adds entries at most, and none at a quiet
    character. *)
Lemma Tokenize_body_table (text : wstring) (i : nat) (s : TokState) :
  ops s ⊆ ops (state_of (Tokenize_body uninit text i s))
  /\ (quiet (ops s) (nth i text 0) ->
      ops (state_of (Tokenize_body uninit text i s)) = ops s).
Proof.
  unfold Tokenize_body, quiet.
  destruct (iswalpha (nth i text 0)) eqn:Halpha; [done|].
  pose proof (Operators_at_subseteq (ops s) (nth i text 0)) as Hsub1.
  pose proof (Operators_at_key (ops s) (nth i text 0)) as Hkey1.
  destruct (Operators_at uninit (ops s) (nth i text 0)) as [op ops1] eqn:Hat1.
  simpl in Hsub1, Hkey1.
  pose proof (Operators_at_subseteq ops1 (nth i text 0)) as Hsub2.
  pose proof (Operators_at_key ops1 (nth i text 0)) as Hkey2.
  destruct (Operators_at uninit ops1 (nth i text 0)) as [op' ops2] eqn:Hat2.
  simpl in Hsub2, Hkey2.
  assert (Hsub12 : ops s ⊆ ops2) by (etrans; eassumption).
  assert (Hquiet : iswdigit (nth i text 0) || (nth i text 0 =? 46) = false ->
                   false = true \/ iswdigit (nth i text 0) = true
                   \/ nth i text 0 = 46 \/ is_Some (ops s !! nth i text 0) ->
                   ops1 = ops s /\ ops2 = ops s).
  { intros Hfirst [?|[Hd|[Hp|Hk]]]; [done| | |].
    - by rewrite Hd in Hfirst.
    - apply N.eqb_eq in Hp. rewrite Hp in Hfirst. by rewrite orb_true_r in Hfirst.
    - pose proof (Hkey1 Hk) as ->. split; [done|]. by apply Hkey2. }
  destruct (parsing_number s); simpl.
  - destruct (iswspace _ || _); [|done].
    unfold Operators_count. case_bool_decide as Hk; simpl; [|done].
    split; [done|]. intros _. by apply Hkey1.
  - destruct (iswdigit (nth i text 0) || (nth i text 0 =? 46)) eqn:Hfirst; [done|].
    destruct (_ && _); simpl.
    { split; [done|]. intros Hq. by destruct (Hquiet eq_refl Hq). }
    destruct (Operators_count _ _); simpl.
    { split; [done|]. intros Hq. by destruct (Hquiet eq_refl Hq). }
    destruct (iswspace _); simpl;
      (split; [done|]; intros Hq; by destruct (Hquiet eq_refl Hq)).
Qed.

Lemma Tokenize_for_table (text : wstring) (idx : list nat) (s : TokState) :
  ops s ⊆ ops (state_of (Tokenize_for uninit text idx s))
  /\ (Forall (fun i => quiet (ops s) (nth i text 0)) idx ->
      ops (state_of (Tokenize_for uninit text idx s)) = ops s).
Proof.
  revert s. induction idx as [|i idx IH]; intros s; simpl; [done|].
  destruct (Tokenize_body_table text i s) as [Hsub Hsame].
  destruct (Tokenize_body uninit text i s) as [s1|e s1] eqn:Hbody; simpl in *.
  - destruct (IH s1) as [Hsub' Hsame']. split; [by etrans|].
    intros Hall. apply Forall_cons in Hall as [Hi Hall].
    rewrite <- (Hsame Hi). apply Hsame'. by rewrite (Hsame Hi).
  - split; [done|]. intros Hall. apply Forall_cons in Hall as [Hi _]. by apply Hsame.
Qed.

Lemma Tokenize_table_state (ops0 : gmap wchar_t Token) (text : wstring) :
  (Tokenize uninit ops0 text).2
  = ops (state_of (Tokenize_for uninit text (seq 0 (length text))
                     (mkTokState false 0%nat [] ops0))).
Proof.
  unfold Tokenize. destruct (Tokenize_for _ _ _ _) as [s|e s]; simpl; [|done].
  by destruct (parsing_number s).
Qed.

Lemma Evaluate_table (ops0 : gmap wchar_t Token) (text : wstring) :
  (Evaluate uninit ops0 text).2 = (Tokenize uninit ops0 text).2.
Proof.
  unfold Evaluate. destruct (Tokenize uninit ops0 text) as [[e toks] ops1].
  case_bool_decide; [done|]. destruct (ConvertToRPN toks) as [e' rpn].
  by case_bool_decide.
Qed.

Lemma quiet_indices (ops0 : gmap wchar_t Token) (text : wstring) :
  Forall (quiet ops0) text ->
  Forall (fun i => quiet ops0 (nth i text 0)) (seq 0 (length text)).
Proof.
  intros Hall. apply Forall_forall. intros i Hi. apply elem_of_seq in Hi.
  apply (proj1 (Forall_forall _ _) Hall), list_elem_of_In, nth_In. lia.
Qed.

Lemma Evaluate_table_subseteq (ops0 : gmap wchar_t Token) (text : wstring) :
  ops0 ⊆ (Evaluate uninit ops0 text).2.
Proof.
  rewrite Evaluate_table, Tokenize_table_state.
  apply (Tokenize_for_table text _ (mkTokState false 0%nat [] ops0)).
Qed.

(** X1: a call of [Evaluate] never removes an entry of the table and never
    changes the token of a key: the table it leaves contains the table it
    found. *)
Theorem Evaluate_table_grows (ops0 : gmap wchar_t Token) (text : wstring) :
  ops0 ⊆ (Evaluate uninit ops0 text).2.
Proof. apply Evaluate_table_subseteq. Qed.

(** X2: on a text made of letters, digits, decimal points and keys of the
    table only, [Evaluate] leaves the table exactly as it found it, and a
    second call on the same text has the same outcome. *)
Theorem Evaluate_repeatable (ops0 : gmap wchar_t Token) (text : wstring) :
  Forall (quiet ops0) text ->
  (Evaluate uninit ops0 text).2 = ops0
  /\ Evaluate uninit (Evaluate uninit ops0 text).2 text = Evaluate uninit ops0 text.
Proof.
  intros Hall.
  assert (Hsame : (Evaluate uninit ops0 text).2 = ops0).
  { rewrite Evaluate_table, Tokenize_table_state.
    apply (Tokenize_for_table text _ (mkTokState false 0%nat [] ops0)).
    by apply quiet_indices. }
  split; [exact Hsame|]. by rewrite Hsame.
Qed.

End TokenizerTable.

(** ** Tokenize: the error codes *)

Section TokenizerErrors.
Context `{A : Arith} `{Loc : Locale}.
Variable uninit : wchar_t -> Token.

Lemma Tokenize_for_Return (text : wstring) (idx : list nat) (s s' : TokState)
    (e : EvaluationError) :
  Tokenize_for uninit text idx s = Return e s' ->
  (e = InvalidCharacters /\ Exists (fun i => iswalpha (nth i text 0) = true) idx)
  \/ (e = UnknownOperator
      /\ Exists (fun i => ~ accepted (ops s) (nth i text 0)) idx).
Proof.
  revert s. induction idx as [|i idx IH]; intros s; simpl; [discriminate|].
  destruct (Tokenize_body uninit text i s) as [s1|e1 s1] eqn:Hbody.
  - intros Hfor. destruct (IH s1 Hfor) as [[-> Hex]|[-> Hex]].
    + left. split; [done|]. by apply Exists_cons_tl.
    + right. split; [done|]. apply Exists_cons_tl.
      eapply Exists_impl; [exact Hex|]. intros k Hk Hacc. apply Hk.
      apply (accepted_mono uninit (ops s) (ops s1)); [|exact Hacc].
      intros c'. by apply (Tokenize_body_keys uninit text i s).
  - intros [= -> ->]. apply Tokenize_body_Return in Hbody as [[-> Hi]|[-> Hi]].
    + left. split; [done|]. by apply Exists_cons_hd.
    + right. split; [done|]. by apply Exists_cons_hd.
Qed.

Lemma Exists_index (P : wchar_t -> Prop) (text : wstring) :
  Exists (fun i => P (nth i text 0)) (seq 0 (length text)) ->
  exists c, c ∈ text /\ P c.
Proof.
  intros Hex. apply Exists_exists in Hex as (i & Hi & HP).
  apply elem_of_seq in Hi. exists (nth i text 0). split; [|done].
  apply list_elem_of_In, nth_In. lia.
Qed.

Lemma Tokenize_error_cases (ops0 : gmap wchar_t Token) (text : wstring) :
  ((Tokenize uninit ops0 text).1.1 = OK
   \/ (Tokenize uninit ops0 text).1.1 = InvalidCharacters
   \/ (Tokenize uninit ops0 text).1.1 = UnknownOperator)
  /\ ((Tokenize uninit ops0 text).1.1 = InvalidCharacters ->
      exists c, c ∈ text /\ iswalpha c = true)
  /\ ((Tokenize uninit ops0 text).1.1 = UnknownOperator ->
      exists c, c ∈ text /\ ~ accepted ops0 c)
  /\ (Forall (fun c => iswalpha c = false /\ accepted ops0 c) text ->
      (Tokenize uninit ops0 text).1.1 = OK).
Proof.
  assert (Hcases :
    (Tokenize uninit ops0 text).1.1 = OK
    \/ ((Tokenize uninit ops0 text).1.1 = InvalidCharacters
        /\ exists c, c ∈ text /\ iswalpha c = true)
    \/ ((Tokenize uninit ops0 text).1.1 = UnknownOperator
        /\ exists c, c ∈ text /\ ~ accepted ops0 c)).
  { unfold Tokenize.
    destruct (Tokenize_for uninit text (seq 0 (length text))
                (mkTokState false 0%nat [] ops0)) as [s|e s] eqn:Hfor.
    - left. by destruct (parsing_number s).
    - right. simpl.
      apply Tokenize_for_Return in Hfor as [[-> Hex]|[-> Hex]]; [left|right];
        (split; [done|]).
      + exact (Exists_index (fun c => iswalpha c = true) text Hex).
      + exact (Exists_index (fun c => ~ accepted ops0 c) text Hex). }
  repeat apply conj.
  - destruct Hcases as [?|[[? _]|[? _]]]; auto.
  - intros He. destruct Hcases as [?|[[_ ?]|[? _]]]; [congruence|done|congruence].
  - intros He. destruct Hcases as [?|[[? _]|[_ ?]]]; [congruence|congruence|done].
  - intros Hall. destruct Hcases as [?|[[_ (c & Hc & Hal)]|[_ (c & Hc & Hrej)]]];
      [done| |].
    + destruct (proj1 (Forall_forall _ _) Hall c Hc) as [Hno _]. congruence.
    + destruct (proj1 (Forall_forall _ _) Hall c Hc) as [_ Hacc]. contradiction.
Qed.

(** X3: [Tokenize] returns [OK], [InvalidCharacters] or [UnknownOperator]
    and nothing else.  [InvalidCharacters] means that the text holds a
    letter; [UnknownOperator] means that it holds a character that is not a
    letter, a digit, a decimal point, white space or a key of the table as
    the call found it.  On a text without letters in which every character
    is a digit, a decimal point, white space or a key, the call returns
    [OK]. *)
Theorem Tokenize_result (ops0 : gmap wchar_t Token) (text : wstring) :
  ((Tokenize uninit ops0 text).1.1 = OK
   \/ (Tokenize uninit ops0 text).1.1 = InvalidCharacters
   \/ (Tokenize uninit ops0 text).1.1 = UnknownOperator)
  /\ ((Tokenize uninit ops0 text).1.1 = InvalidCharacters ->
      exists c, c ∈ text /\ iswalpha c = true)
  /\ ((Tokenize uninit ops0 text).1.1 = UnknownOperator ->
      exists c, c ∈ text /\ ~ accepted ops0 c)
  /\ (Forall (fun c => iswalpha c = false /\ accepted ops0 c) text ->
      (Tokenize uninit ops0 text).1.1 = OK).
Proof. apply Tokenize_error_cases. Qed.

End TokenizerErrors.

(** ** ConvertToRPN: parentheses, and what becomes of the tokens *)

Section ConverterShape.
Context `{A : Arith}.

Lemma filter_Forall_id {X} (P : X -> Prop) `{forall x, Decision (P x)} (l : list X) :
  Forall P l -> filter P l = l.
Proof.
  induction 1 as [|x l Hx _ IH]; [done|].
  by rewrite filter_cons_True, IH.
Qed.

Lemma filter_Forall_nil {X} (P : X -> Prop) `{forall x, Decision (P x)} (l : list X) :
  Forall (fun x => ~ P x) l -> filter P l = [].
Proof.
  induction 1 as [|x l Hx _ IH]; [done|].
  by rewrite filter_cons_False.
Qed.

(** The default case, for use below: the token is pushed after nothing or
    the top was popped. *)
Lemma default_case_shape (t : Token) (op_stack rpn : list Token) :
  is_operator (type t) = true ->
  exists op_stack' rpn',
    ConvertToRPN_body t (op_stack, rpn) = Next (t :: op_stack', rpn') /\
    ((op_stack' = op_stack /\ rpn' = rpn /\ True) \/
     (exists top_op, op_stack = top_op :: op_stack' /\ rpn' = rpn ++ [top_op] /\
      pop_condition t top_op = true)).
Proof.
  intros Hop.
  assert (Hbody : ConvertToRPN_body t (op_stack, rpn) =
                  let '(st, out) := default_compare t op_stack rpn in Next (t :: st, out)).
  { unfold ConvertToRPN_body. destruct (type t); try discriminate Hop; reflexivity. }
  rewrite Hbody, default_compare_spec.
  destruct op_stack as [|top_op rest].
  - exists [], rpn. split; [reflexivity|]. by left.
  - destruct (pop_condition t top_op) eqn:Hc.
    + exists rest, (rpn ++ [top_op]). split; [reflexivity|]. right. eauto.
    + exists (top_op :: rest), rpn. split; [reflexivity|]. by left.
Qed.

(** Every stack splits at its topmost left parenthesis, if it has one. *)
Lemma stack_split (op_stack : list Token) :
  Forall (fun o => type o <> LParanthesis) op_stack
  \/ exists above lp below,
       op_stack = above ++ lp :: below
       /\ Forall (fun o => type o <> LParanthesis) above
       /\ type lp = LParanthesis.
Proof.
  induction op_stack as [|o op_stack IH]; [by left|].
  destruct (decide (type o = LParanthesis)) as [Ho|Ho].
  - right. exists [], o, op_stack. by repeat split.
  - destruct IH as [Hall|(above & lp & below & -> & Habove & Hlp)].
    + left. by constructor.
    + right. exists (o :: above), lp, below. repeat split; [|done]. by constructor.
Qed.

(** What one token does to the stack and the output when the loop goes on:
    the tokens [moved] leave the top of the stack for the output, and none
    of them is a left parenthesis. *)
Lemma ConvertToRPN_body_Next (t : Token) (op_stack rpn op_stack' rpn' : list Token) :
  ConvertToRPN_body t (op_stack, rpn) = Next (op_stack', rpn') ->
  exists moved kept,
    op_stack = moved ++ kept
    /\ Forall (fun o => type o <> LParanthesis) moved
    /\ ((type t = Number /\ moved = [] /\ op_stack' = kept /\ rpn' = rpn ++ [t])
        \/ (type t = LParanthesis /\ moved = [] /\ op_stack' = t :: kept /\ rpn' = rpn)
        \/ (type t = RParenthesis /\ rpn' = rpn ++ moved
            /\ exists lp, kept = lp :: op_stack' /\ type lp = LParanthesis)
        \/ (is_operator (type t) = true /\ op_stack' = t :: kept
            /\ rpn' = rpn ++ moved)).
Proof.
  intros Hbody.
  destruct (is_operator (type t)) eqn:Hop.
  - destruct (default_case_shape t op_stack rpn Hop)
      as (st & out & Hb & Hcase).
    rewrite Hb in Hbody. injection Hbody as <- <-.
    destruct Hcase as [(-> & -> & _)|(top_op & -> & -> & Hc)].
    + exists [], op_stack. split; [done|]. split; [constructor|].
      right. right. right. by rewrite app_nil_r.
    + exists [top_op], st. split; [done|]. split.
      * constructor; [|constructor]. unfold pop_condition in Hc.
        apply andb_prop in Hc as [Hc _]. by apply bool_decide_eq_true in Hc.
      * by repeat right.
  - unfold ConvertToRPN_body in Hbody.
    destruct (type t) eqn:Ht; try discriminate Hop.
    + injection Hbody as <- <-. exists [], op_stack.
      split; [done|]. split; [constructor|]. by left.
    + injection Hbody as <- <-. exists [], op_stack.
      split; [done|]. split; [constructor|]. right. by left.
    + destruct (stack_split op_stack)
        as [Hall|(above & lp & below & -> & Habove & Hlp)].
      * by rewrite (RParen_while_missing _ _ Hall) in Hbody.
      * rewrite (RParen_while_found _ _ _ _ Habove Hlp) in Hbody.
        injection Hbody as <- <-. exists above, (lp :: below).
        split; [done|]. split; [done|]. right. right. left. eauto.
Qed.

(** The loop stops at a right parenthesis only, when no left parenthesis is
    on the stack. *)
Lemma ConvertToRPN_body_Return (t : Token) (op_stack rpn : list Token)
    (e : EvaluationError) (s' : list Token * list Token) :
  ConvertToRPN_body t (op_stack, rpn) = Return e s' ->
  e = MismatchedParantheses /\ type t = RParenthesis
  /\ Forall (fun o => type o <> LParanthesis) op_stack.
Proof.
  unfold ConvertToRPN_body.
  destruct (type t) eqn:Ht; try discriminate;
    try (destruct (default_compare t op_stack rpn); discriminate).
  destruct (stack_split op_stack) as [Hall|(above & lp & below & -> & Habove & Hlp)].
  - rewrite (RParen_while_missing _ _ Hall). by intros [= <- _].
  - by rewrite (RParen_while_found _ _ _ _ Habove Hlp).
Qed.

Lemma open_parens_app (l1 l2 : list Token) :
  open_parens (l1 ++ l2) = (open_parens l1 + open_parens l2)%nat.
Proof. unfold open_parens. by rewrite filter_app, length_app. Qed.

Lemma open_parens_moved (moved : list Token) :
  Forall (fun o => type o <> LParanthesis) moved -> open_parens moved = 0%nat.
Proof.
  intros Hall. unfold open_parens.
  rewrite (filter_Forall_nil (fun o => type o = LParanthesis)); [done|].
  eapply Forall_impl; [exact Hall|]. by intros o Ho.
Qed.

Lemma open_parens_cons (o : Token) (l : list Token) :
  open_parens (o :: l)
  = ((if decide (type o = LParanthesis) then 1 else 0) + open_parens l)%nat.
Proof. unfold open_parens. rewrite filter_cons. by case_decide. Qed.

(** The loop keeps as many left parentheses on the stack as are open in the
    tokens read, and stops at the first right parenthesis that closes
    nothing. *)
Lemma ConvertToRPN_for_depth (tokens op_stack rpn : list Token) :
  match paren_depth tokens (open_parens op_stack) with
  | Some d =>
      exists op_stack' rpn',
        ConvertToRPN_for tokens (op_stack, rpn) = Next (op_stack', rpn')
        /\ open_parens op_stack' = d
  | None =>
      exists s', ConvertToRPN_for tokens (op_stack, rpn)
                 = Return MismatchedParantheses s'
  end.
Proof.
  revert op_stack rpn.
  induction tokens as [|t tokens IH]; intros op_stack rpn; [simpl; eauto|].
  cbn [ConvertToRPN_for paren_depth].
  destruct (ConvertToRPN_body t (op_stack, rpn)) as [[st out]|e s'] eqn:Hbody.
  - apply ConvertToRPN_body_Next in Hbody
      as (moved & kept & -> & Hmoved & Hcase).
    rewrite open_parens_app, (open_parens_moved _ Hmoved), Nat.add_0_l.
    specialize (IH st out).
    destruct Hcase as [(Ht & _ & -> & _)|[(Ht & _ & -> & _)
                      |[(Ht & _ & lp & -> & Hlp)|(Ht & -> & _)]]].
    + by rewrite Ht.
    + rewrite Ht. rewrite open_parens_cons in IH.
      by rewrite decide_True in IH by done.
    + rewrite Ht. rewrite open_parens_cons. by rewrite decide_True by done.
    + rewrite open_parens_cons in IH.
      rewrite decide_False in IH by (intros Hl; by rewrite Hl in Ht).
      by destruct (type t).
  - apply ConvertToRPN_body_Return in Hbody as (-> & Ht & Hall).
    rewrite Ht, (open_parens_moved _ Hall). eauto.
Qed.

Lemma drain_result (op_stack rpn : list Token) :
  match open_parens op_stack with
  | O => drain op_stack rpn = (OK, rpn ++ op_stack)
         /\ Forall (fun o => type o <> LParanthesis) op_stack
  | S _ => (drain op_stack rpn).1 = MismatchedParantheses
  end.
Proof.
  destruct (stack_split op_stack) as [Hall|(above & lp & below & -> & Habove & Hlp)].
  - rewrite (open_parens_moved _ Hall). split; [by apply drain_clean|done].
  - rewrite open_parens_app, open_parens_cons, decide_True by done.
    rewrite Nat.add_succ_r. apply drain_lparen.
    apply Exists_app. right. by apply Exists_cons_hd.
Qed.

Lemma ConvertToRPN_errors (tokens : list Token) :
  (ConvertToRPN tokens).1 = OK \/ (ConvertToRPN tokens).1 = MismatchedParantheses.
Proof.
  pose proof (ConvertToRPN_for_depth tokens [] []) as Hfor.
  unfold ConvertToRPN.
  destruct (paren_depth tokens (open_parens [])) as [d|].
  - destruct Hfor as (st & out & -> & Hd).
    pose proof (drain_result st out) as Hdrain.
    destruct (open_parens st); [destruct Hdrain as [-> _]; by left|by right].
  - destruct Hfor as ([st out] & ->). by right.
Qed.

Lemma ConvertToRPN_OK_iff_depth (tokens : list Token) :
  ((ConvertToRPN tokens).1 = OK <-> paren_depth tokens 0 = Some 0%nat)
  /\ ((ConvertToRPN tokens).1 = MismatchedParantheses
      <-> paren_depth tokens 0 <> Some 0%nat).
Proof.
  pose proof (ConvertToRPN_for_depth tokens [] []) as Hfor.
  change (open_parens []) with 0%nat in Hfor.
  unfold ConvertToRPN.
  destruct (paren_depth tokens 0) as [d|].
  - destruct Hfor as (st & out & -> & Hd).
    pose proof (drain_result st out) as Hdrain. rewrite Hd in Hdrain.
    destruct d as [|d].
    + destruct Hdrain as [-> _]. simpl. split; (split; intros; congruence).
    + rewrite Hdrain. split; (split; intros; congruence).
  - destruct Hfor as ([st out] & ->). simpl. split; (split; intros; congruence).
Qed.

(** X4: [ConvertToRPN] returns [OK] exactly when the parentheses of the
    token sequence are balanced (no right parenthesis without an open left
    one before it, none left open at the end), and
    [MismatchedParantheses] otherwise. *)
Theorem ConvertToRPN_balanced (tokens : list Token) :
  ((ConvertToRPN tokens).1 = OK <-> paren_depth tokens 0 = Some 0%nat)
  /\ ((ConvertToRPN tokens).1 = MismatchedParantheses
      <-> paren_depth tokens 0 <> Some 0%nat).
Proof. apply ConvertToRPN_OK_iff_depth. Qed.

Lemma filter_one {X} (P : X -> Prop) `{forall x, Decision (P x)} (x : X) :
  filter P (x :: []) = if decide (P x) then x :: [] else [].
Proof. rewrite filter_cons, filter_nil. by case_decide. Qed.

Lemma operators_on_moved (moved : list Token) :
  Forall (fun o => type o <> LParanthesis) moved -> operators_on moved = moved.
Proof. apply filter_Forall_id. Qed.

Lemma numbers_none (l : list Token) :
  Forall (fun o => type o <> Number) l -> numbers l = [].
Proof. intros Hall. by apply (filter_Forall_nil (fun o => type o = Number)). Qed.

(** The effect of one token on the tokens held (output and stack together)
    and on the numbers of the output. *)
Lemma ConvertToRPN_body_tokens (t : Token) (op_stack rpn op_stack' rpn' : list Token) :
  ConvertToRPN_body t (op_stack, rpn) = Next (op_stack', rpn') ->
  rpn' ++ operators_on op_stack' ≡ₚ (rpn ++ operators_on op_stack) ++ without_parens [t]
  /\ (Forall (fun o => type o <> Number) op_stack ->
      numbers rpn' = numbers rpn ++ numbers [t]
      /\ Forall (fun o => type o <> Number) op_stack').
Proof.
  intros Hbody.
  apply ConvertToRPN_body_Next in Hbody as (moved & kept & -> & Hmoved & Hcase).
  unfold operators_on at 2. rewrite filter_app.
  fold (operators_on moved) (operators_on kept). rewrite (operators_on_moved _ Hmoved).
  unfold without_parens, numbers. rewrite !filter_one.
  destruct Hcase as [(Ht & -> & -> & ->)|[(Ht & -> & -> & ->)
                    |[(Ht & -> & lp & -> & Hlp)|(Ht & -> & ->)]]].
  - rewrite Ht. simpl.
    split.
    + rewrite <- !app_assoc. apply Permutation_app_head, Permutation_app_comm.
    + intros Hstack. split; [|done]. rewrite filter_app, filter_one.
      by rewrite decide_True.
  - rewrite Ht. simpl.
    rewrite !app_nil_r. split.
    + unfold operators_on. rewrite filter_cons_False; [done|]. by intros Hn.
    + intros Hstack. split; [done|]. constructor; [|done]. by rewrite Ht.
  - rewrite Ht. simpl.
    rewrite !app_nil_r. split.
    + unfold operators_on at 2. rewrite filter_cons_False by (by intros Hn).
      by rewrite <- app_assoc.
    + intros Hstack. apply Forall_app in Hstack as [Hm Hk].
      apply Forall_cons in Hk as [_ Hk]. split; [|done].
      rewrite filter_app. fold (numbers moved). by rewrite (numbers_none _ Hm), app_nil_r.
  - assert (Hnp : is_paren (type t) = false) by (by destruct (type t)).
    assert (Hnn : type t <> Number) by (intros Hn; by rewrite Hn in Ht).
    assert (Hnl : type t <> LParanthesis) by (intros Hn; by rewrite Hn in Ht).
    rewrite decide_True by done. rewrite decide_False by done. rewrite app_nil_r.
    split.
    + unfold operators_on at 1. rewrite filter_cons_True by done.
      fold (operators_on kept). rewrite <- !app_assoc.
      apply Permutation_app_head, Permutation_app_head.
      change (t :: operators_on kept) with ([t] ++ operators_on kept).
      apply Permutation_app_comm.
    + intros Hstack. apply Forall_app in Hstack as [Hm Hk]. split; [|by constructor].
      rewrite filter_app. fold (numbers moved). by rewrite (numbers_none _ Hm), app_nil_r.
Qed.

Lemma ConvertToRPN_for_tokens (tokens op_stack rpn op_stack' rpn' : list Token) :
  ConvertToRPN_for tokens (op_stack, rpn) = Next (op_stack', rpn') ->
  rpn' ++ operators_on op_stack' ≡ₚ (rpn ++ operators_on op_stack) ++ without_parens tokens
  /\ (Forall (fun o => type o <> Number) op_stack ->
      numbers rpn' = numbers rpn ++ numbers tokens
      /\ Forall (fun o => type o <> Number) op_stack').
Proof.
  revert op_stack rpn.
  induction tokens as [|t tokens IH]; intros op_stack rpn.
  - intros [= <- <-]. unfold without_parens, numbers. rewrite !filter_nil, !app_nil_r.
    by split.
  - cbn [ConvertToRPN_for].
    destruct (ConvertToRPN_body t (op_stack, rpn)) as [[st out]|] eqn:Hbody;
      [|discriminate].
    intros Hfor. destruct (ConvertToRPN_body_tokens _ _ _ _ _ Hbody) as [Hp1 Hn1].
    destruct (IH _ _ Hfor) as [Hp2 Hn2].
    change (t :: tokens) with ([t] ++ tokens).
    unfold without_parens, numbers in *. rewrite !filter_app. split.
    + rewrite Hp2, Hp1. by rewrite <- !app_assoc.
    + intros Hstack. destruct (Hn1 Hstack) as [Ha Hb].
      destruct (Hn2 Hb) as [Hc Hd]. split; [|done].
      by rewrite Hc, Ha, <- app_assoc.
Qed.

Lemma ConvertToRPN_OK (tokens rpn : list Token) :
  ConvertToRPN tokens = (OK, rpn) ->
  exists op_stack out,
    ConvertToRPN_for tokens ([], []) = Next (op_stack, out)
    /\ rpn = out ++ op_stack
    /\ Forall (fun o => type o <> LParanthesis) op_stack.
Proof.
  unfold ConvertToRPN.
  destruct (ConvertToRPN_for tokens ([], [])) as [[st out]|e [st out]] eqn:Hfor.
  - intros Hdrain. pose proof (drain_result st out) as Hres.
    destruct (open_parens st).
    + destruct Hres as [Hres Hall]. rewrite Hres in Hdrain.
      injection Hdrain as <-. eauto.
    + rewrite Hdrain in Hres. discriminate Hres.
  - intros [= -> _]. clear -Hfor. exfalso. revert Hfor.
    generalize (@nil Token) at 1 as st0. generalize (@nil Token) at 1 as out0.
    induction tokens as [|t tokens IH]; intros out0 st0; [discriminate|].
    cbn [ConvertToRPN_for].
    destruct (ConvertToRPN_body t (st0, out0)) as [[st1 out1]|e1 s1] eqn:Hbody.
    + apply IH.
    + intros [= -> _]. by apply ConvertToRPN_body_Return in Hbody as [? _].
Qed.

Lemma ConvertToRPN_perm (tokens rpn : list Token) :
  ConvertToRPN tokens = (OK, rpn) ->
  rpn ≡ₚ without_parens tokens
  /\ Forall (fun t => is_paren (type t) = false) rpn.
Proof.
  intros Hok.
  apply ConvertToRPN_OK in Hok as (st & out & Hfor & -> & Hall).
  destruct (ConvertToRPN_for_tokens _ _ _ _ _ Hfor) as [Hperm _].
  rewrite (operators_on_moved _ Hall) in Hperm. simpl in Hperm.
  split; [exact Hperm|]. rewrite Hperm.
  unfold without_parens. apply Forall_forall. intros t Ht.
  by apply list_elem_of_filter in Ht as [Ht _].
Qed.

(** X5: when [ConvertToRPN] returns [OK], its output is a rearrangement of
    the input tokens other than the parentheses: no token is lost or added,
    and no parenthesis reaches the output. *)
Theorem ConvertToRPN_rearranges (tokens rpn : list Token) :
  ConvertToRPN tokens = (OK, rpn) ->
  rpn ≡ₚ without_parens tokens
  /\ Forall (fun t => is_paren (type t) = false) rpn.
Proof. apply ConvertToRPN_perm. Qed.

(** X6: when [ConvertToRPN] returns [OK], the numbers stand in the output in
    the order in which they stood in the input. *)
Theorem ConvertToRPN_keeps_numbers (tokens rpn : list Token) :
  ConvertToRPN tokens = (OK, rpn) -> numbers rpn = numbers tokens.
Proof.
  intros Hok.
  apply ConvertToRPN_OK in Hok as (st & out & Hfor & -> & Hall).
  destruct (ConvertToRPN_for_tokens _ _ _ _ _ Hfor) as [_ Hnum].
  destruct (Hnum ltac:(constructor)) as [Hout Hst].
  unfold numbers in *. rewrite filter_app. fold (numbers st).
  by rewrite (numbers_none _ Hst), app_nil_r, Hout.
Qed.

End ConverterShape.

(** ** The evaluation loop: counting values *)

Section EvaluatorCount.
Context `{A : Arith}.

Lemma Evaluate_body_length (t : Token) (eval_stack : list double) :
  match Evaluate_body t eval_stack with
  | Next st =>
      (type t = Number /\ length st = S (length eval_stack))
      \/ (type t <> Number /\ S (length st) = length eval_stack)
  | Return e st =>
      e = NotEnoughInputs /\ type t <> Number /\ (length eval_stack < 2)%nat
  end.
Proof.
  unfold Evaluate_body. case_bool_decide as Ht; [by left|].
  destruct eval_stack as [|? [|? ?]]; simpl; [split; [done|split; [done|lia]]..|].
  by right.
Qed.

Lemma numbers_cons (t : Token) (l : list Token) :
  length (numbers (t :: l))
  = ((if decide (type t = Number) then 1 else 0) + length (numbers l))%nat.
Proof. unfold numbers. rewrite filter_cons. by case_decide. Qed.

Lemma others_cons (t : Token) (l : list Token) :
  length (others (t :: l))
  = ((if decide (type t = Number) then 0 else 1) + length (others l))%nat.
Proof. unfold others. rewrite filter_cons. by do 2 case_decide. Qed.

(** Each number adds a value, every other token takes one away. *)
Lemma Evaluate_for_count (rpn : list Token) (eval_stack : list double) :
  match Evaluate_for rpn eval_stack with
  | Next st =>
      (length st + length (others rpn) = length eval_stack + length (numbers rpn))%nat
  | Return e _ =>
      e = NotEnoughInputs
      /\ exists before t after,
           rpn = before ++ t :: after /\ type t <> Number
           /\ (length eval_stack + length (numbers before)
               < length (others before) + 2)%nat
  end.
Proof.
  revert eval_stack. induction rpn as [|t rpn IH]; intros eval_stack; [simpl; lia|].
  cbn [Evaluate_for].
  pose proof (Evaluate_body_length t eval_stack) as Hbody.
  destruct (Evaluate_body t eval_stack) as [st1|e st1].
  - specialize (IH st1). rewrite numbers_cons, others_cons.
    destruct (Evaluate_for rpn st1) as [st2|e st2].
    + destruct Hbody as [[Ht Hlen]|[Ht Hlen]].
      * rewrite !decide_True by done. lia.
      * rewrite !decide_False by done. lia.
    + destruct IH as (-> & before & t' & after & -> & Ht' & Hlt).
      split; [done|]. exists (t :: before), t', after. split; [done|]. split; [done|].
      rewrite numbers_cons, others_cons.
      destruct Hbody as [[Ht Hlen]|[Ht Hlen]].
      * rewrite !decide_True by done. lia.
      * rewrite !decide_False by done. lia.
  - destruct Hbody as (-> & Ht & Hlen). split; [done|].
    exists [], t, rpn. split; [done|]. split; [done|]. simpl. lia.
Qed.

Lemma Evaluate_rpn_cases (rpn : list Token) :
  (exists v, Evaluate_rpn rpn = Returned OK (Some v)
             /\ length (numbers rpn) = S (length (others rpn)))
  \/ (Evaluate_rpn rpn = Returned TooManyInputs None
      /\ (S (length (others rpn)) < length (numbers rpn))%nat)
  \/ (Evaluate_rpn rpn = Returned NotEnoughInputs None
      /\ exists before t after,
           rpn = before ++ t :: after /\ type t <> Number
           /\ (length (numbers before) < length (others before) + 2)%nat)
  \/ (Evaluate_rpn rpn = TopOfEmptyStack /\ rpn = []).
Proof.
  unfold Evaluate_rpn.
  pose proof (Evaluate_for_count rpn []) as Hcount.
  destruct (Evaluate_for rpn []) as [st|e st] eqn:Hfor.
  - unfold Evaluate_finish. simpl in Hcount.
    destruct st as [|v [|v' st]]; simpl in *.
    + right. right. right. split; [done|].
      destruct rpn as [|t rpn]; [done|]. exfalso.
      assert (Hne : t :: rpn <> [] \/ @nil double <> []) by (by left).
      exact (Evaluate_for_nonempty (t :: rpn) [] [] Hfor Hne eq_refl).
    + left. exists v. split; [done|]. lia.
    + right. left. split; [done|]. lia.
  - destruct Hcount as (-> & before & t & after & Hrpn & Ht & Hlt).
    right. right. left. split; [done|]. exists before, t, after. by repeat split.
Qed.

(** X7: what the evaluation of a postfix sequence can come to.  It returns
    [OK] with a value only if the sequence has exactly one number more than
    it has other tokens, [TooManyInputs] only if it has more numbers than
    that, and [NotEnoughInputs] only at a token that is not a number and
    finds fewer than two values, the numbers before it exceeding the other
    tokens before it by less than two.  No other error code is returned,
    and the one remaining outcome, the read of an empty stack, is that of
    the empty sequence. *)
Theorem Evaluate_rpn_outcomes (rpn : list Token) :
  (exists v, Evaluate_rpn rpn = Returned OK (Some v)
             /\ length (numbers rpn) = S (length (others rpn)))
  \/ (Evaluate_rpn rpn = Returned TooManyInputs None
      /\ (S (length (others rpn)) < length (numbers rpn))%nat)
  \/ (Evaluate_rpn rpn = Returned NotEnoughInputs None
      /\ exists before t after,
           rpn = before ++ t :: after /\ type t <> Number
           /\ (length (numbers before) < length (others before) + 2)%nat)
  \/ (Evaluate_rpn rpn = TopOfEmptyStack /\ rpn = []).
Proof. apply Evaluate_rpn_cases. Qed.

Lemma Evaluate_rpn_empty_iff (rpn : list Token) :
  Evaluate_rpn rpn = TopOfEmptyStack <-> rpn = [].
Proof.
  split; [|by intros ->].
  destruct (Evaluate_rpn_cases rpn)
    as [(v & -> & _)|[[-> _]|[[-> _]|[_ ->]]]]; done.
Qed.

(** X8: the read of the top of an empty stack happens for the empty postfix
    sequence and for no other. *)
Theorem Evaluate_rpn_undefined (rpn : list Token) :
  Evaluate_rpn rpn = TopOfEmptyStack <-> rpn = [].
Proof. apply Evaluate_rpn_empty_iff. Qed.

End EvaluatorCount.

(** ** Evaluate: how the stages compose *)

Section Stages.
Context `{A : Arith} `{Loc : Locale}.
Variable uninit : wchar_t -> Token.

(** The three ways through [Evaluate], by the error codes of the stages. *)
Lemma Evaluate_stages (ops0 : gmap wchar_t Token) (text : wstring) :
  ((Tokenize uninit ops0 text).1.1 <> OK
   /\ (Evaluate uninit ops0 text).1 = Returned (Tokenize uninit ops0 text).1.1 None)
  \/ ((Tokenize uninit ops0 text).1.1 = OK
      /\ (ConvertToRPN (Tokenize uninit ops0 text).1.2).1 <> OK
      /\ (Evaluate uninit ops0 text).1
         = Returned (ConvertToRPN (Tokenize uninit ops0 text).1.2).1 None)
  \/ ((Tokenize uninit ops0 text).1.1 = OK
      /\ (ConvertToRPN (Tokenize uninit ops0 text).1.2).1 = OK
      /\ (Evaluate uninit ops0 text).1
         = Evaluate_rpn (ConvertToRPN (Tokenize uninit ops0 text).1.2).2).
Proof.
  unfold Evaluate. destruct (Tokenize uninit ops0 text) as [[te toks] ops1]. simpl.
  case_bool_decide as Hte; [by left|]. right.
  destruct (ConvertToRPN toks) as [ce rpn]. simpl.
  case_bool_decide as Hce; [by left|]. by right.
Qed.

Lemma Evaluate_result_iff_OK (ops0 : gmap wchar_t Token) (text : wstring)
    (e : EvaluationError) (result : option double) :
  (Evaluate uninit ops0 text).1 = Returned e result ->
  e = OK <-> is_Some result.
Proof.
  destruct (Evaluate_stages ops0 text) as [[Hne ->]|[(_ & Hne & ->)|(_ & _ & ->)]].
  - intros [= <- <-]. split; [done|]. by intros [? ?].
  - intros [= <- <-]. split; [done|]. by intros [? ?].
  - destruct (Evaluate_rpn_cases (ConvertToRPN (Tokenize uninit ops0 text).1.2).2)
      as [(v & -> & _)|[[-> _]|[[-> _]|[-> _]]]]; intros [= <- <-]; split;
      try done; try (by intros [? ?]); eauto.
Qed.

(** X9: [Evaluate] assigns [result] exactly when it returns [OK]. *)
Theorem Evaluate_assigns_result (ops0 : gmap wchar_t Token) (text : wstring)
    (e : EvaluationError) (result : option double) :
  (Evaluate uninit ops0 text).1 = Returned e result ->
  e = OK <-> is_Some result.
Proof. apply Evaluate_result_iff_OK. Qed.

(** X10: which stage an error code comes from.  [InvalidCharacters] and
    [UnknownOperator] are the tokenizer's; [MismatchedParantheses] means
    that the text was tokenized and its parentheses are not balanced;
    [TooManyInputs] and [NotEnoughInputs] mean that it was tokenized and its
    parentheses are balanced. *)
Theorem Evaluate_error_origin (ops0 : gmap wchar_t Token) (text : wstring)
    (e : EvaluationError) :
  (Evaluate uninit ops0 text).1 = Returned e None ->
  match e with
  | OK => False
  | InvalidCharacters | UnknownOperator => (Tokenize uninit ops0 text).1.1 = e
  | MismatchedParantheses =>
      (Tokenize uninit ops0 text).1.1 = OK
      /\ paren_depth (Tokenize uninit ops0 text).1.2 0 <> Some 0%nat
  | TooManyInputs | NotEnoughInputs =>
      (Tokenize uninit ops0 text).1.1 = OK
      /\ paren_depth (Tokenize uninit ops0 text).1.2 0 = Some 0%nat
  end.
Proof.
  pose proof (Tokenize_error_cases uninit ops0 text) as [Hte _].
  pose proof (ConvertToRPN_OK_iff_depth (Tokenize uninit ops0 text).1.2) as [Hok Hmis].
  destruct (Evaluate_stages ops0 text) as [[Hne ->]|[(Hte' & Hne & ->)|(Hte' & Hce & ->)]].
  - destruct Hte as [?|[Hte|Hte]]; [done|..]; rewrite Hte; by intros [= <-].
  - destruct (ConvertToRPN_errors (Tokenize uninit ops0 text).1.2) as [Hce|Hce];
      [done|].
    apply Hmis in Hce as Hdepth. rewrite Hce. intros [= <-]. by split.
  - apply Hok in Hce.
    destruct (Evaluate_rpn_cases (ConvertToRPN (Tokenize uninit ops0 text).1.2).2)
      as [(v & -> & _)|[[-> _]|[[-> _]|[-> _]]]]; intros [= <-]; by split.
Qed.

Lemma without_parens_nil (tokens : list Token) :
  without_parens tokens = [] <-> Forall (fun t => is_paren (type t) = true) tokens.
Proof.
  unfold without_parens. induction tokens as [|t tokens IH]; [done|].
  rewrite filter_cons. case_decide as Ht.
  - split; [done|]. intros Hall. apply Forall_cons in Hall as [Hp _]. congruence.
  - rewrite IH. split.
    + intros Hall. constructor; [|done]. by destruct (is_paren (type t)).
    + intros Hall. by apply Forall_cons in Hall as [_ ?].
Qed.

Lemma Evaluate_empty_top_iff (ops0 : gmap wchar_t Token) (text : wstring) :
  (Evaluate uninit ops0 text).1 = TopOfEmptyStack
  <-> (Tokenize uninit ops0 text).1.1 = OK
      /\ Forall (fun t => is_paren (type t) = true) (Tokenize uninit ops0 text).1.2
      /\ paren_depth (Tokenize uninit ops0 text).1.2 0 = Some 0%nat.
Proof.
  pose proof (ConvertToRPN_OK_iff_depth (Tokenize uninit ops0 text).1.2) as [Hok _].
  pose proof (ConvertToRPN_perm (Tokenize uninit ops0 text).1.2) as Hperm.
  destruct (Evaluate_stages ops0 text) as [[Hne ->]|[(Hte & Hne & ->)|(Hte & Hce & ->)]].
  - split; [done|]. by intros [? _].
  - split; [done|]. intros (_ & _ & Hd). by apply Hok in Hd.
  - destruct (ConvertToRPN (Tokenize uninit ops0 text).1.2) as [ce rpn] eqn:Hconv.
    simpl in *. subst ce. destruct (Hperm rpn eq_refl) as [Hp _].
    rewrite Evaluate_rpn_empty_iff. split.
    + intros ->. split; [done|]. split; [|by apply Hok].
      apply without_parens_nil. symmetry in Hp. by apply Permutation_nil_r in Hp.
    + intros (_ & Hall & _). apply without_parens_nil in Hall.
      rewrite Hall in Hp. by apply Permutation_nil_r in Hp.
Qed.

(** X11: a call of [Evaluate] reads the top of an empty stack exactly when
    the text is tokenized without error into nothing but parentheses, and
    these are balanced (the text without any token included). *)
Theorem Evaluate_undefined (ops0 : gmap wchar_t Token) (text : wstring) :
  (Evaluate uninit ops0 text).1 = TopOfEmptyStack
  <-> (Tokenize uninit ops0 text).1.1 = OK
      /\ Forall (fun t => is_paren (type t) = true) (Tokenize uninit ops0 text).1.2
      /\ paren_depth (Tokenize uninit ops0 text).1.2 0 = Some 0%nat.
Proof. apply Evaluate_empty_top_iff. Qed.

End Stages.

(** ** The pipeline on two literals and an operator *)

Section BinaryExpression.
Context `{A : Arith}.
Variable uninit : wchar_t -> Token.

Lemma numeric_C_locale (c : wchar_t) :
  numeric c = true -> C_iswalpha c = false /\ C_iswspace c = false /\ c <> 0.
Proof.
  unfold numeric, iswdigit, C_iswalpha, C_iswspace. intros Hc.
  apply orb_true_iff in Hc as [Hc|Hc].
  - apply andb_true_iff in Hc as [H1 H2].
    apply N.leb_le in H1, H2.
    repeat split; [| |lia];
      repeat match goal with
             | |- context [(?x <=? ?y)] => destruct (N.leb_spec x y)
             | |- context [(?x =? ?y)] => destruct (N.eqb_spec x y)
             end; simpl; try reflexivity; lia.
  - apply N.eqb_eq in Hc as ->. by repeat split.
Qed.

Lemma c_str_numeric (a : wstring) :
  Forall (fun c => numeric c = true) a -> c_str a = a.
Proof.
  induction 1 as [|c a Hc _ IH]; [done|]. simpl.
  destruct (numeric_C_locale c Hc) as (_ & _ & Hnz).
  destruct (N.eqb_spec c 0); [done|]. by rewrite IH.
Qed.

Lemma Tokenize_for_app (text : wstring) (idx1 idx2 : list nat) (s : TokState) :
  Tokenize_for (Loc:=C_locale) uninit text (idx1 ++ idx2) s
  = match Tokenize_for (Loc:=C_locale) uninit text idx1 s with
    | Next s' => Tokenize_for (Loc:=C_locale) uninit text idx2 s'
    | Return e s' => Return e s'
    end.
Proof.
  revert s. induction idx1 as [|i idx1 IH]; intros s; [done|]. simpl.
  destruct (Tokenize_body uninit text i s); [apply IH|done].
Qed.

(** Inside a number, a character of a literal that is no key changes
    nothing; outside, it starts a number. *)
Lemma Tokenize_body_numeric (text : wstring) (i : nat) (s : TokState) :
  numeric (nth i text 0) = true ->
  ops s !! nth i text 0 = None ->
  Tokenize_body (Loc:=C_locale) uninit text i s
  = Next (if parsing_number s then s
          else mkTokState true i (tokens s) (ops s)).
Proof.
  intros Hnum Hkey. destruct (numeric_C_locale _ Hnum) as (Halpha & Hspace & _).
  unfold Tokenize_body, Operators_count. cbv zeta.
  cbn [iswalpha iswspace C_locale]. unfold wchar_t in *.
  rewrite Halpha, Hspace, Hkey.
  rewrite bool_decide_eq_false_2 by (by intros [? ?]).
  destruct (parsing_number s); simpl; [done|].
  unfold numeric in Hnum. by rewrite Hnum.
Qed.

Lemma Tokenize_for_numeric (text : wstring) (n k : nat) (s : TokState) :
  (forall j, (k <= j < k + n)%nat -> numeric (nth j text 0) = true
                                     /\ ops s !! nth j text 0 = None) ->
  Tokenize_for (Loc:=C_locale) uninit text (seq k n) s
  = Next (if parsing_number s then s
          else match n with
               | O => s
               | S _ => mkTokState true k (tokens s) (ops s)
               end).
Proof.
  revert k s. induction n as [|n IH]; intros k s Hrun; simpl.
  - by destruct (parsing_number s).
  - destruct (Hrun k ltac:(lia)) as [Hnum Hkey].
    rewrite (Tokenize_body_numeric _ _ _ Hnum Hkey).
    destruct (parsing_number s) eqn:Hp.
    + rewrite IH by (intros j Hj; apply Hrun; lia). by rewrite Hp.
    + rewrite IH by (intros j Hj; apply Hrun; lia). done.
Qed.

(** X12: in the "C" locale, a text made of an unsigned decimal literal, one
    character that the table maps to an operator token, and a second
    unsigned decimal literal, with nothing in between, evaluates to that
    operator applied to the two literals as [wcstod] reads them, and the
    table is left as it was.  (The literals are not empty and none of their
    characters is a key of the table.) *)
Theorem Evaluate_binary (ops0 : gmap wchar_t Token) (a b : wstring)
    (c : wchar_t) (op : Token) :
  a <> [] -> b <> [] ->
  Forall (fun d => numeric d = true /\ ops0 !! d = None) a ->
  Forall (fun d => numeric d = true /\ ops0 !! d = None) b ->
  C_iswalpha c = false ->
  ops0 !! c = Some op ->
  is_operator (type op) = true ->
  Evaluate (Loc:=C_locale) uninit ops0 (a ++ c :: b)
  = (Returned OK (Some (apply_operator (type op) (wcstod a) (wcstod b))), ops0).
Proof.
  intros Ha Hb Hnuma Hnumb Halpha Hkey Hop.
  set (text := a ++ c :: b).
  assert (Hidx : seq 0 (length text)
                 = seq 0 (length a) ++ [length a] ++ seq (S (length a)) (length b)).
  { unfold text. rewrite length_app. simpl length.
    by rewrite seq_app, Nat.add_0_l, <- cons_seq. }
  assert (Hc : nth (length a) text 0 = c) by apply nth_middle.
  assert (Hruna : forall j, (0 <= j < 0 + length a)%nat ->
            numeric (nth j text 0) = true /\ ops0 !! nth j text 0 = None).
  { intros j Hj. unfold text. rewrite app_nth1 by lia.
    apply (proj1 (Forall_forall _ _) Hnuma), list_elem_of_In, nth_In. lia. }
  assert (Hrunb : forall j, (S (length a) <= j < S (length a) + length b)%nat ->
            numeric (nth j text 0) = true /\ ops0 !! nth j text 0 = None).
  { intros j Hj. unfold text. rewrite app_nth2 by lia.
    replace (j - length a)%nat with (S (j - S (length a))) by lia. simpl.
    apply (proj1 (Forall_forall _ _) Hnumb), list_elem_of_In, nth_In. lia. }
  assert (Hsuba : substr text 0 (length a - 0) = a).
  { unfold substr, text. rewrite Nat.sub_0_r. change (skipn 0 (a ++ c :: b)) with (a ++ c :: b).
    apply take_app_length. }
  assert (Hsubb : substr_from text (S (length a)) = b).
  { unfold substr_from, text.
    change (a ++ c :: b) with (a ++ [c] ++ b). rewrite app_assoc.
    apply drop_app_length'. rewrite length_app. unfold wchar_t. simpl. lia. }
  assert (Htok : Tokenize (Loc:=C_locale) uninit ops0 text
                 = (OK, [mkToken _ Number (wcstod a); op; mkToken _ Number (wcstod b)],
                    ops0)).
  { unfold Tokenize. rewrite Hidx, Tokenize_for_app.
    rewrite (Tokenize_for_numeric text (length a) 0
               (mkTokState false 0%nat [] ops0) Hruna).
    cbn [parsing_number tokens ops].
    destruct (length a) as [|la] eqn:Hla; [by destruct a|]. rewrite <- Hla in *.
    cbn [app Tokenize_for]. unfold Tokenize_body at 1. cbv zeta. rewrite Hc.
    cbn [iswalpha C_locale parsing_number negb ops tokens start_index].
    rewrite Halpha. unfold Operators_count, Operators_at, wchar_t in *. rewrite Hkey.
    rewrite bool_decide_eq_true_2 by eauto. rewrite orb_true_r.
    rewrite Hsuba, (c_str_numeric a)
      by (eapply Forall_impl; [exact Hnuma|]; by intros ? [? _]).
    rewrite (Tokenize_for_numeric text (length b) (S (length a))
               (mkTokState false 0%nat
                  (push_back (push_back [] (mkToken _ Number (wcstod a))) op) ops0)
               Hrunb).
    cbn [parsing_number tokens ops]. destruct (length b) as [|lb] eqn:Hlb;
      [by destruct b|].
    cbn [parsing_number start_index tokens ops].
    rewrite Hsubb, (c_str_numeric b)
      by (eapply Forall_impl; [exact Hnumb|]; by intros ? [? _]).
    reflexivity. }
  unfold Evaluate. rewrite Htok.
  destruct op as [ty v]. simpl in Hop.
  destruct ty; try discriminate Hop; reflexivity.
Qed.

(** X19: in the "C" locale, a text that is one unsigned decimal literal
    evaluates to the number that [wcstod] reads from it; and with a minus
    sign directly before a literal that starts with a digit, the whole text,
    sign included, is the literal.  The table is left as it was. *)
Theorem Evaluate_literal (ops0 : gmap wchar_t Token) (a : wstring) :
  a <> [] ->
  Forall (fun d => numeric d = true /\ ops0 !! d = None) a ->
  Evaluate (Loc:=C_locale) uninit ops0 a = (Returned OK (Some (wcstod a)), ops0)
  /\ (forall op, ops0 !! 45 = Some op -> type op = Sub ->
      iswdigit (nth 0 a 0) = true ->
      Evaluate (Loc:=C_locale) uninit ops0 (45 :: a)
      = (Returned OK (Some (wcstod (45 :: a))), ops0)).
Proof.
  intros Ha Hnum.
  assert (Hcstr : c_str a = a)
    by (apply c_str_numeric; eapply Forall_impl; [exact Hnum|]; by intros ? [? _]).
  assert (Hlen : exists n, length a = S n)
    by (destruct a; [done|]; simpl; eauto).
  destruct Hlen as [n Hn].
  split.
  - assert (Hrun : forall j, (0 <= j < 0 + length a)%nat ->
              numeric (nth j a 0) = true /\ ops0 !! nth j a 0 = None).
    { intros j Hj. apply (proj1 (Forall_forall _ _) Hnum), list_elem_of_In, nth_In. lia. }
    assert (Htok : Tokenize (Loc:=C_locale) uninit ops0 a
                   = (OK, [mkToken _ Number (wcstod a)], ops0)).
    { unfold Tokenize.
      rewrite (Tokenize_for_numeric a (length a) 0
                 (mkTokState false 0%nat [] ops0) Hrun).
      cbn [parsing_number tokens ops]. rewrite Hn.
      cbn [parsing_number start_index tokens ops].
      unfold substr_from. change (skipn 0 a) with a. by rewrite Hcstr. }
    unfold Evaluate. by rewrite Htok.
  - intros op Hkey Hsub Hdigit.
    assert (Hrun : forall j, (1 <= j < 1 + length a)%nat ->
              numeric (nth j (45 :: a) 0) = true
              /\ ops0 !! nth j (45 :: a) 0 = None).
    { intros j Hj. destruct j as [|j]; [lia|]. simpl.
      apply (proj1 (Forall_forall _ _) Hnum), list_elem_of_In, nth_In. lia. }
    assert (Htok : Tokenize (Loc:=C_locale) uninit ops0 (45 :: a)
                   = (OK, [mkToken _ Number (wcstod (45 :: a))], ops0)).
    { unfold Tokenize. cbn [length seq Tokenize_for].
      unfold Tokenize_body at 1. cbv zeta.
      cbn [nth iswalpha iswspace C_locale parsing_number negb ops tokens start_index].
      change (C_iswalpha 45) with false. change (iswdigit 45 || (45 =? 46)) with false.
      cbv iota. unfold Operators_at, wchar_t in *. rewrite Hkey.
      rewrite bool_decide_eq_true_2 by exact Hsub.
      change (0 + 1)%nat with 1%nat. cbv beta iota. rewrite Hdigit.
      replace (1 <? length (45%N :: a))%nat with true
        by (symmetry; apply Nat.ltb_lt; simpl; lia).
      cbn [andb].
      rewrite (Tokenize_for_numeric (45 :: a) (length a) 1
                 (mkTokState true 0%nat [] ops0) Hrun).
      cbn [parsing_number start_index tokens ops].
      unfold substr_from. change (skipn 0 (45 :: a)) with (45 :: a).
      simpl c_str. by rewrite Hcstr. }
    unfold Evaluate. by rewrite Htok.
Qed.

End BinaryExpression.

(** ** GetFriendlyEvaluationError *)

(** X13: the six error codes have six different messages; in particular a
    message other than ["OK"] never stands for [OK]. *)
Theorem GetFriendlyEvaluationError_injective (e1 e2 : EvaluationError) :
  GetFriendlyEvaluationError e1 = GetFriendlyEvaluationError e2 -> e1 = e2.
Proof.
  destruct e1, e2; intros Heq; try reflexivity; vm_compute in Heq; discriminate Heq.
Qed.

(** ** main *)

Section DriverProperties.
Context `{A : Arith} `{Loc : Locale}.
Variable uninit : wchar_t -> Token.

Lemma getline_no_newline (tail user_input : wstring) :
  Forall (fun c => c <> 10) tail -> getline tail user_input = [].
Proof.
  intros Hall. revert user_input.
  induction Hall as [|c tail Hc _ IH]; intros user_input; [done|]. simpl.
  destruct (N.eqb_spec c 10); [done|]. apply IH.
Qed.

Lemma getline_tail (stdin tail user_input : wstring) :
  Forall (fun c => c <> 10) tail ->
  getline (stdin ++ 10 :: tail) user_input = getline (stdin ++ [10]) user_input.
Proof.
  intros Hall. revert user_input.
  induction stdin as [|c stdin IH]; intros user_input; simpl.
  - by rewrite (getline_no_newline tail [] Hall).
  - destruct (c =? 10); by rewrite IH.
Qed.

(** X14: characters after the last newline of the input are never
    evaluated: the program behaves as if they were not there, and an input
    without any newline gets the prompt and nothing else. *)
Theorem main_drops_unterminated_line (stdin tail : wstring) :
  Forall (fun c => c <> 10) tail ->
  main uninit (stdin ++ 10 :: tail) = main uninit (stdin ++ [10])
  /\ main uninit tail = ([Prompt], Exited 0 Operators).
Proof.
  intros Hall. unfold main. split.
  - by rewrite getline_tail.
  - by rewrite getline_no_newline.
Qed.

(** X15: a run that ends by [return] has exit code 0, has written one prompt
    per line read and one more, and one line of output for each line read
    that is not empty; the table it ends with contains the one it started
    with. *)
Theorem main_loop_exit (lines : list wstring) (ops0 ops' : gmap wchar_t Token)
    (out : list Output) (code : Z) :
  main_loop uninit lines ops0 = (out, Exited code ops') ->
  code = 0%Z
  /\ length (filter (fun o => is_prompt o = true) out) = S (length lines)
  /\ length (filter (fun o => is_prompt o = false) out)
     = length (filter (fun l => l <> []) lines)
  /\ ops0 ⊆ ops'.
Proof.
  revert ops0 out. induction lines as [|l lines IH]; intros ops0 out; simpl.
  - intros [= <- <- <-]. by repeat split.
  - case_bool_decide as Hl.
    + destruct (main_loop uninit lines ops0) as [out1 ex1] eqn:Hrest.
      intros [= <- ->]. destruct (IH _ _ Hrest) as (-> & Hp & Hn & Hsub).
      rewrite !filter_cons. rewrite decide_True by done.
      rewrite (decide_False (P:=is_prompt Prompt = false)) by done.
      rewrite (decide_False (P:=l <> [])) by (by intros Hne).
      simpl. by rewrite Hp, Hn.
    + pose proof (Evaluate_table_subseteq uninit ops0 l) as Hgrow.
      destruct (Evaluate uninit ops0 l) as [[e r|] ops1]; [|discriminate].
      simpl in Hgrow.
      destruct (main_loop uninit lines ops1) as [out1 ex1] eqn:Hrest.
      intros [= <- ->]. destruct (IH _ _ Hrest) as (-> & Hp & Hn & Hsub).
      rewrite !filter_cons. rewrite decide_True by done.
      rewrite (decide_False (P:=is_prompt Prompt = false)) by done.
      rewrite (decide_True (P:=l <> [])) by done.
      assert (Hline : is_prompt (if bool_decide (e = OK)
                                 then PrintResult (default dzero r)
                                 else PrintMessage (GetFriendlyEvaluationError e))
                      = false) by (by case_bool_decide).
      rewrite (decide_False (P:=is_prompt _ = true)) by (by rewrite Hline).
      rewrite (decide_True (P:=is_prompt _ = false)) by done.
      simpl. rewrite Hp, Hn. split; [done|]. split; [done|]. split; [done|].
      by etrans.
Qed.

(** X16: whatever the input, a message that the program prints is the
    message of one of the five errors, never that of [OK]; and a result that
    it prints is one that a call of [Evaluate] returned with [OK]. *)
Theorem main_loop_lines (lines : list wstring) (ops0 : gmap wchar_t Token) :
  Forall (fun o =>
            match o with
            | Prompt => True
            | PrintMessage m =>
                exists e, e <> OK /\ m = GetFriendlyEvaluationError e
            | PrintResult d =>
                exists ops l, l ∈ lines
                  /\ (Evaluate uninit ops l).1 = Returned OK (Some d)
            end)
         (main_loop uninit lines ops0).1.
Proof.
  revert ops0. induction lines as [|l lines IH]; intros ops0; simpl.
  - by repeat constructor.
  - assert (Hrest : forall ops1,
      Forall (fun o =>
                match o with
                | Prompt => True
                | PrintMessage m =>
                    exists e, e <> OK /\ m = GetFriendlyEvaluationError e
                | PrintResult d =>
                    exists ops l0, l0 ∈ l :: lines
                      /\ (Evaluate uninit ops l0).1 = Returned OK (Some d)
                end)
             (main_loop uninit lines ops1).1).
    { intros ops1. eapply Forall_impl; [apply IH|].
      intros [|d|m]; [done| |done].
      intros (ops & l0 & Hl0 & Hev). exists ops, l0. split; [by right|done]. }
    case_bool_decide as Hl.
    + specialize (Hrest ops0).
      destruct (main_loop uninit lines ops0) as [out1 ex1]. by constructor.
    + pose proof (Evaluate_result_iff_OK uninit ops0 l) as Hassign.
      destruct (Evaluate uninit ops0 l) as [[e r|] ops1] eqn:Hev; simpl.
      * specialize (Hrest ops1).
        destruct (main_loop uninit lines ops1) as [out1 ex1]. simpl in *.
        constructor; [done|]. constructor; [|done].
        case_bool_decide as He.
        -- subst e. destruct (proj1 (Hassign OK r eq_refl) eq_refl) as [d ->].
           exists ops0, l. split; [by left|]. by rewrite Hev.
        -- by exists e.
      * by repeat constructor.
Qed.

End DriverProperties.

(** ** Tokenize: which keys are added, and when a number is produced *)

Section TokenizerMore.
Context `{A : Arith} `{Loc : Locale}.
Variable uninit : wchar_t -> Token.

Lemma Operators_at_new_key (ops : gmap wchar_t Token) (c c' : wchar_t) :
  is_Some ((Operators_at uninit ops c).2 !! c') -> is_Some (ops !! c') \/ c' = c.
Proof.
  unfold Operators_at. destruct (ops !! c) eqn:Hc; simpl; [by left|].
  destruct (decide (c = c')) as [->|Hne]; [by right|].
  rewrite lookup_insert_ne by done. by left.
Qed.

Lemma Tokenize_body_new_key (text : wstring) (i : nat) (s : TokState) (c : wchar_t) :
  is_Some (ops (state_of (Tokenize_body uninit text i s)) !! c) ->
  is_Some (ops s !! c)
  \/ (c = nth i text 0 /\ iswalpha c = false /\ numeric c = false).
Proof.
  unfold Tokenize_body.
  destruct (iswalpha (nth i text 0)) eqn:Halpha; [by left|].
  pose proof (Operators_at_new_key (ops s) (nth i text 0) c) as H1.
  pose proof (Operators_at_key uninit (ops s) (nth i text 0)) as Hkey1.
  destruct (Operators_at uninit (ops s) (nth i text 0)) as [op ops1] eqn:Hat1.
  simpl in H1, Hkey1.
  pose proof (Operators_at_new_key ops1 (nth i text 0) c) as H2.
  destruct (Operators_at uninit ops1 (nth i text 0)) as [op' ops2] eqn:Hat2.
  simpl in H2.
  destruct (parsing_number s); simpl.
  - destruct (iswspace _ || _); [|by left].
    unfold Operators_count. case_bool_decide as Hk; simpl; [|by left].
    rewrite (Hkey1 Hk). by left.
  - destruct (iswdigit (nth i text 0) || (nth i text 0 =? 46)) eqn:Hnum; [by left|].
    assert (Hnew : is_Some (ops2 !! c) \/ is_Some (ops1 !! c) ->
                   is_Some (ops s !! c)
                   \/ (c = nth i text 0 /\ iswalpha c = false /\ numeric c = false)).
    { intros [Hc|Hc].
      - destruct (H2 Hc) as [Hc1| ->]; [|by right].
        destruct (H1 Hc1) as [?| ->]; [by left|by right].
      - destruct (H1 Hc) as [?| ->]; [by left|by right]. }
    destruct (_ && _); simpl; [intros Hc; apply Hnew; by right|].
    destruct (Operators_count _ _); simpl; [intros Hc; apply Hnew; by left|].
    destruct (iswspace _); simpl; intros Hc; apply Hnew; by right.
Qed.

Lemma Tokenize_for_new_key (text : wstring) (idx : list nat) (s : TokState)
    (c : wchar_t) :
  is_Some (ops (state_of (Tokenize_for uninit text idx s)) !! c) ->
  is_Some (ops s !! c)
  \/ (Exists (fun i => c = nth i text 0) idx
      /\ iswalpha c = false /\ numeric c = false).
Proof.
  revert s. induction idx as [|i idx IH]; intros s; simpl; [by left|].
  pose proof (Tokenize_body_new_key text i s c) as Hbody.
  destruct (Tokenize_body uninit text i s) as [s1|e s1]; simpl in *.
  - intros Hc. destruct (IH s1 Hc) as [Hc1|(Hex & ? & ?)].
    + destruct (Hbody Hc1) as [?|(-> & ? & ?)]; [by left|].
      right. split; [by apply Exists_cons_hd|done].
    + right. split; [by apply Exists_cons_tl|done].
  - intros Hc. destruct (Hbody Hc) as [?|(-> & ? & ?)]; [by left|].
    right. split; [by apply Exists_cons_hd|done].
Qed.

(** X17: the keys that a call of [Evaluate] adds to the table are
    characters of the text that are not letters, digits or decimal
    points. *)
Theorem Evaluate_new_keys (ops0 : gmap wchar_t Token) (text : wstring) (c : wchar_t) :
  is_Some ((Evaluate uninit ops0 text).2 !! c) ->
  is_Some (ops0 !! c)
  \/ (c ∈ text /\ iswalpha c = false /\ numeric c = false).
Proof.
  rewrite Evaluate_table, Tokenize_table_state. intros Hc.
  apply Tokenize_for_new_key in Hc as [?|(Hex & ? & ?)]; [by left|]. right.
  split; [|done]. apply Exists_exists in Hex as (i & Hi & ->).
  apply elem_of_seq in Hi. apply list_elem_of_In, nth_In. lia.
Qed.

(** Tokens are only ever appended, and a number in progress ends in a
    [Number] token or is still in progress. *)
Lemma Tokenize_body_number (text : wstring) (i : nat) (s s' : TokState) :
  Tokenize_body uninit text i s = Next s' ->
  (Exists (fun t => type t = Number) (tokens s)
   \/ parsing_number s = true \/ iswdigit (nth i text 0) = true) ->
  Exists (fun t => type t = Number) (tokens s') \/ parsing_number s' = true.
Proof.
  unfold Tokenize_body, push_back.
  destruct (iswalpha (nth i text 0)); [discriminate|].
  destruct (Operators_at uninit (ops s) (nth i text 0)) as [op ops1].
  destruct (Operators_at uninit ops1 (nth i text 0)) as [op' ops2].
  destruct (parsing_number s) eqn:Hp; simpl.
  - destruct (iswspace _ || _).
    + destruct (Operators_count _ _); intros [= <-] _; left; simpl;
        rewrite ?Exists_app; [left|]; right; by apply Exists_cons_hd.
    + intros [= <-] _. by right.
  - destruct (iswdigit (nth i text 0)) eqn:Hd; simpl; [intros [= <-] _; by right|].
    destruct (nth i text 0 =? 46); simpl; [intros [= <-] _; by right|].
    destruct (_ && _); [intros [= <-] _; by right|].
    destruct (Operators_count _ _).
    + intros [= <-] [Hex|[?|?]]; [|done..]. left. simpl.
      apply Exists_app. by left.
    + destruct (iswspace _); [|discriminate].
      intros [= <-] [Hex|[?|?]]; [|done..]. by left.
Qed.

Lemma Tokenize_for_number (text : wstring) (idx : list nat) (s s' : TokState) :
  Tokenize_for uninit text idx s = Next s' ->
  (Exists (fun t => type t = Number) (tokens s)
   \/ parsing_number s = true
   \/ Exists (fun i => iswdigit (nth i text 0) = true) idx) ->
  Exists (fun t => type t = Number) (tokens s') \/ parsing_number s' = true.
Proof.
  revert s. induction idx as [|i idx IH]; intros s; simpl.
  - intros [= <-] [?|[?|Hex]]; [by left|by right|by apply Exists_nil in Hex].
  - destruct (Tokenize_body uninit text i s) as [s1|] eqn:Hbody; [|discriminate].
    intros Hfor Hsome. apply (IH s1 Hfor).
    destruct Hsome as [?|[?|Hex]].
    + destruct (Tokenize_body_number _ _ _ _ Hbody) as [?|?]; auto.
    + destruct (Tokenize_body_number _ _ _ _ Hbody) as [?|?]; auto.
    + apply Exists_cons in Hex as [Hd|Hex]; [|auto].
      destruct (Tokenize_body_number _ _ _ _ Hbody) as [?|?]; auto.
Qed.

(** X18: a text that holds a decimal digit is tokenized, if at all, into a
    sequence with a number in it; so [Evaluate] never reads the top of an
    empty stack on such a text. *)
Theorem Evaluate_digit_defined (ops0 : gmap wchar_t Token) (text : wstring)
    (c : wchar_t) :
  c ∈ text -> iswdigit c = true ->
  ((Tokenize uninit ops0 text).1.1 = OK ->
   Exists (fun t => type t = Number) (Tokenize uninit ops0 text).1.2)
  /\ (Evaluate uninit ops0 text).1 <> TopOfEmptyStack.
Proof.
  intros Hc Hd.
  assert (Hnum : (Tokenize uninit ops0 text).1.1 = OK ->
                 Exists (fun t => type t = Number) (Tokenize uninit ops0 text).1.2).
  { unfold Tokenize.
    destruct (Tokenize_for uninit text (seq 0 (length text))
                (mkTokState false 0%nat [] ops0)) as [s|e s] eqn:Hfor.
    - intros _.
      destruct (Tokenize_for_number _ _ _ _ Hfor) as [Hex|Hp].
      + right. right. apply list_elem_of_In, (In_nth _ _ 0) in Hc as (i & Hi & Hnth).
        apply Exists_exists. exists i. split; [|by rewrite Hnth].
        apply elem_of_seq. lia.
      + destruct (parsing_number s); simpl; [|done].
        unfold push_back. apply Exists_app. by left.
      + rewrite Hp. simpl. unfold push_back. apply Exists_app. right.
        by apply Exists_cons_hd.
    - simpl. intros ->.
      by apply Tokenize_for_Return in Hfor as [[? _]|[? _]]. }
  split; [exact Hnum|]. intros Hundef.
  apply Evaluate_empty_top_iff in Hundef as (Hok & Hall & _).
  apply Hnum in Hok. apply Exists_exists in Hok as (t & Ht & Hty).
  pose proof (proj1 (Forall_forall _ _) Hall t Ht) as Hparen.
  simpl in Hparen. by rewrite Hty in Hparen.
Qed.

End TokenizerMore.

(** ** The evaluation loop: composing postfix sequences *)

Section EvaluatorCompose.
Context `{A : Arith}.

Lemma Evaluate_body_frame (t : Token) (eval_stack st below : list double) :
  Evaluate_body t eval_stack = Next st ->
  Evaluate_body t (eval_stack ++ below) = Next (st ++ below).
Proof.
  unfold Evaluate_body. case_bool_decide; [by intros [= <-]|].
  destruct eval_stack as [|? [|? ?]]; try discriminate. by intros [= <-].
Qed.

(** Values below those that a sequence works on are left alone. *)
Lemma Evaluate_for_frame (rpn : list Token) (eval_stack st below : list double) :
  Evaluate_for rpn eval_stack = Next st ->
  Evaluate_for rpn (eval_stack ++ below) = Next (st ++ below).
Proof.
  revert eval_stack. induction rpn as [|t rpn IH]; intros eval_stack; simpl.
  - by intros [= <-].
  - destruct (Evaluate_body t eval_stack) as [st1|] eqn:Hbody; [|discriminate].
    rewrite (Evaluate_body_frame _ _ _ below Hbody). apply IH.
Qed.

Lemma Evaluate_for_app (rpn1 rpn2 : list Token) (eval_stack st : list double) :
  Evaluate_for rpn1 eval_stack = Next st ->
  Evaluate_for (rpn1 ++ rpn2) eval_stack = Evaluate_for rpn2 st.
Proof.
  revert eval_stack. induction rpn1 as [|t rpn1 IH]; intros eval_stack; simpl.
  - by intros [= <-].
  - destruct (Evaluate_body t eval_stack); [apply IH|discriminate].
Qed.

Lemma Evaluate_rpn_value (rpn : list Token) (v : double) :
  Evaluate_rpn rpn = Returned OK (Some v) <-> Evaluate_for rpn [] = Next [v].
Proof.
  unfold Evaluate_rpn, Evaluate_finish.
  destruct (Evaluate_for rpn []) as [[|v1 [|v2 st]]|e st]; simpl;
    split; intros [=]; by subst.
Qed.

(** X20: postfix sequences compose.  If one sequence evaluates to [lhs] and
    a second to [rhs], then the first followed by the second and by an
    operator token evaluates to [lhs op rhs]. *)
Theorem Evaluate_rpn_compose (rpn1 rpn2 : list Token) (t : Token) (lhs rhs : double) :
  Evaluate_rpn rpn1 = Returned OK (Some lhs) ->
  Evaluate_rpn rpn2 = Returned OK (Some rhs) ->
  is_operator (type t) = true ->
  Evaluate_rpn (rpn1 ++ rpn2 ++ [t])
  = Returned OK (Some (apply_operator (type t) lhs rhs)).
Proof.
  intros H1 H2 Hop. apply Evaluate_rpn_value in H1, H2. apply Evaluate_rpn_value.
  rewrite (Evaluate_for_app _ _ _ _ H1).
  pose proof (Evaluate_for_frame _ _ _ [lhs] H2) as H2'. simpl in H2'.
  rewrite (Evaluate_for_app _ _ _ _ H2'). simpl.
  by rewrite (Evaluate_body_binary t rhs lhs [] Hop).
Qed.

End EvaluatorCompose.

(** ** Instances of the further properties on exact numbers *)

Lemma Evaluate_repeatable_witness :
  Forall (quiet (Loc:=C_locale) (Operators (A:=Exact.arith))) (L "1+2*3")
  /\ (Evaluate (A:=Exact.arith) (Loc:=C_locale) Exact.zeroed (Operators (A:=Exact.arith)) (L "1+2*3")).2 = (Operators (A:=Exact.arith))
  /\ Evaluate (A:=Exact.arith) (Loc:=C_locale) Exact.zeroed (Evaluate (A:=Exact.arith) (Loc:=C_locale) Exact.zeroed (Operators (A:=Exact.arith)) (L "1+2*3")).2 (L "1+2*3") = Evaluate (A:=Exact.arith) (Loc:=C_locale) Exact.zeroed (Operators (A:=Exact.arith)) (L "1+2*3").
Proof.
  assert (Hq : Forall (quiet (Loc:=C_locale) (Operators (A:=Exact.arith))) (L "1+2*3")).
  { unfold quiet.
    repeat (constructor;
            [first [ right; left; reflexivity
                   | right; right; right; vm_compute; eauto ]|]).
    constructor. }
  split; [exact Hq|].
  exact (Evaluate_repeatable (A:=Exact.arith) (Loc:=C_locale) Exact.zeroed
           (Operators (A:=Exact.arith)) (L "1+2*3") Hq).
Defined.

Lemma Tokenize_result_witness :
  Forall (fun c => C_iswalpha c = false /\ accepted (Loc:=C_locale) (Operators (A:=Exact.arith)) c) (L "1+ 2")
  /\ (Tokenize (A:=Exact.arith) (Loc:=C_locale) Exact.zeroed (Operators (A:=Exact.arith)) (L "1+ 2")).1.1 = OK.
Proof.
  assert (Hq : Forall (fun c => C_iswalpha c = false
                               /\ accepted (Loc:=C_locale) (Operators (A:=Exact.arith)) c) (L "1+ 2")).
  { unfold accepted.
    repeat (constructor;
            [split; [reflexivity|];
             first [ right; left; reflexivity
                   | right; right; right; left; reflexivity
                   | right; right; right; right; vm_compute; eauto ]|]).
    constructor. }
  split; [exact Hq|].
  exact (proj2 (proj2 (proj2 (Tokenize_result (A:=Exact.arith) (Loc:=C_locale)
                                Exact.zeroed (Operators (A:=Exact.arith)) (L "1+ 2")))) Hq).
Defined.

Lemma ConvertToRPN_balanced_witness :
  paren_depth [Exact.tok LParanthesis; Exact.number 1; Exact.tok RParenthesis] 0
  = Some 0%nat
  /\ (ConvertToRPN [Exact.tok LParanthesis; Exact.number 1;
                    Exact.tok RParenthesis]).1 = OK.
Proof.
  split; [reflexivity|].
  apply (proj1 (ConvertToRPN_balanced (A:=Exact.arith)
                  [Exact.tok LParanthesis; Exact.number 1; Exact.tok RParenthesis])).
  reflexivity.
Defined.

Lemma ConvertToRPN_rearranges_witness :
  ConvertToRPN [Exact.tok LParanthesis; Exact.number 1; Exact.tok Add;
                Exact.number 2; Exact.tok RParenthesis]
  = (OK, [Exact.number 1; Exact.number 2; Exact.tok Add])
  /\ [Exact.number 1; Exact.number 2; Exact.tok Add]
     ≡ₚ without_parens [Exact.tok LParanthesis; Exact.number 1; Exact.tok Add;
                        Exact.number 2; Exact.tok RParenthesis]
  /\ Forall (fun t => is_paren (type t) = false)
       [Exact.number 1; Exact.number 2; Exact.tok Add].
Proof.
  split; [reflexivity|].
  exact (ConvertToRPN_rearranges (A:=Exact.arith)
           [Exact.tok LParanthesis; Exact.number 1; Exact.tok Add;
            Exact.number 2; Exact.tok RParenthesis]
           [Exact.number 1; Exact.number 2; Exact.tok Add] eq_refl).
Defined.

Lemma ConvertToRPN_keeps_numbers_witness :
  ConvertToRPN [Exact.number 1; Exact.tok Add; Exact.number 2; Exact.tok Mult;
                Exact.number 3]
  = (OK, [Exact.number 1; Exact.number 2; Exact.number 3; Exact.tok Mult;
          Exact.tok Add])
  /\ numbers [Exact.number 1; Exact.number 2; Exact.number 3; Exact.tok Mult;
              Exact.tok Add]
     = numbers [Exact.number 1; Exact.tok Add; Exact.number 2; Exact.tok Mult;
                Exact.number 3].
Proof.
  split; [reflexivity|].
  exact (ConvertToRPN_keeps_numbers (A:=Exact.arith)
           [Exact.number 1; Exact.tok Add; Exact.number 2; Exact.tok Mult;
            Exact.number 3]
           [Exact.number 1; Exact.number 2; Exact.number 3; Exact.tok Mult;
            Exact.tok Add] eq_refl).
Defined.

Lemma Evaluate_rpn_undefined_witness :
  Evaluate_rpn (A:=Exact.arith) [] = TopOfEmptyStack.
Proof.
  apply (proj2 (Evaluate_rpn_undefined (A:=Exact.arith) [])). reflexivity.
Defined.

Lemma Evaluate_assigns_result_witness :
  (Evaluate (A:=Exact.arith) (Loc:=C_locale) Exact.zeroed (Operators (A:=Exact.arith)) (L "1+2")).1 = Exact.ok 3
  /\ (OK = OK <-> is_Some (Some (Some 3%Q : double (Arith:=Exact.arith)))).
Proof.
  split; [reflexivity|].
  exact (Evaluate_assigns_result (A:=Exact.arith) (Loc:=C_locale) Exact.zeroed
           (Operators (A:=Exact.arith)) (L "1+2") OK _ eq_refl).
Defined.

Lemma Evaluate_error_origin_witness :
  (Evaluate (A:=Exact.arith) (Loc:=C_locale) Exact.zeroed (Operators (A:=Exact.arith)) (L "(1")).1 = Returned MismatchedParantheses None
  /\ (Tokenize (A:=Exact.arith) (Loc:=C_locale) Exact.zeroed (Operators (A:=Exact.arith)) (L "(1")).1.1 = OK
  /\ paren_depth (Tokenize (A:=Exact.arith) (Loc:=C_locale) Exact.zeroed (Operators (A:=Exact.arith)) (L "(1")).1.2 0 <> Some 0%nat.
Proof.
  split; [reflexivity|].
  exact (Evaluate_error_origin (A:=Exact.arith) (Loc:=C_locale) Exact.zeroed
           (Operators (A:=Exact.arith)) (L "(1") MismatchedParantheses eq_refl).
Defined.

Lemma Evaluate_undefined_witness :
  (Tokenize (A:=Exact.arith) (Loc:=C_locale) Exact.zeroed (Operators (A:=Exact.arith)) (L "(())")).1.1 = OK
  /\ Forall (fun t => is_paren (type t) = true) (Tokenize (A:=Exact.arith) (Loc:=C_locale) Exact.zeroed (Operators (A:=Exact.arith)) (L "(())")).1.2
  /\ paren_depth (Tokenize (A:=Exact.arith) (Loc:=C_locale) Exact.zeroed (Operators (A:=Exact.arith)) (L "(())")).1.2 0 = Some 0%nat
  /\ (Evaluate (A:=Exact.arith) (Loc:=C_locale) Exact.zeroed (Operators (A:=Exact.arith)) (L "(())")).1 = TopOfEmptyStack.
Proof.
  assert (Hall : Forall (fun t => is_paren (type t) = true)
                   (Tokenize (A:=Exact.arith) (Loc:=C_locale) Exact.zeroed (Operators (A:=Exact.arith)) (L "(())")).1.2)
    by (vm_compute; repeat constructor).
  split; [reflexivity|]. split; [exact Hall|]. split; [reflexivity|].
  apply (proj2 (Evaluate_undefined (A:=Exact.arith) (Loc:=C_locale) Exact.zeroed
                  (Operators (A:=Exact.arith)) (L "(())"))).
  split; [reflexivity|]. split; [exact Hall|reflexivity].
Defined.

Lemma Evaluate_binary_witness :
  Evaluate (A:=Exact.arith) (Loc:=C_locale) Exact.zeroed (Operators (A:=Exact.arith)) (L "12" ++ 47 :: L "4") = (Exact.ok 3, (Operators (A:=Exact.arith))).
Proof.
  assert (Hnum : forall s, Forall (fun d => numeric d = true) s ->
            Forall (fun d => numeric d = true /\ (Operators (A:=Exact.arith)) !! d = None) s).
  { intros s Hs. eapply Forall_impl; [exact Hs|]. intros d Hd. split; [done|].
    unfold numeric, iswdigit in Hd. unfold Operators.
    repeat (rewrite lookup_insert_ne;
            [|intros <-; vm_compute in Hd; discriminate Hd]).
    apply lookup_empty. }
  exact (Evaluate_binary (A:=Exact.arith) Exact.zeroed (Operators (A:=Exact.arith)) (L "12") (L "4") 47
           (Exact.tok Div) ltac:(discriminate) ltac:(discriminate)
           (Hnum (L "12") ltac:(repeat constructor))
           (Hnum (L "4") ltac:(repeat constructor))
           eq_refl eq_refl eq_refl).
Defined.

Lemma Evaluate_literal_witness :
  Evaluate (A:=Exact.arith) (Loc:=C_locale) Exact.zeroed (Operators (A:=Exact.arith)) (L "2.5") = (Exact.ok (5 # 2), (Operators (A:=Exact.arith)))
  /\ Evaluate (A:=Exact.arith) (Loc:=C_locale) Exact.zeroed (Operators (A:=Exact.arith)) (L "-2.5") = (Exact.ok (-5 # 2), (Operators (A:=Exact.arith))).
Proof.
  assert (Hnum : Forall (fun d => numeric d = true /\ (Operators (A:=Exact.arith)) !! d = None) (L "2.5"))
    by (repeat (constructor; [split; reflexivity|]); constructor).
  split.
  - exact (proj1 (Evaluate_literal (A:=Exact.arith) Exact.zeroed (Operators (A:=Exact.arith)) (L "2.5")
                    ltac:(discriminate) Hnum)).
  - exact (proj2 (Evaluate_literal (A:=Exact.arith) Exact.zeroed (Operators (A:=Exact.arith)) (L "2.5")
                    ltac:(discriminate) Hnum)
             (Exact.tok Sub) eq_refl eq_refl eq_refl).
Defined.

Lemma GetFriendlyEvaluationError_injective_witness :
  GetFriendlyEvaluationError TooManyInputs = GetFriendlyEvaluationError TooManyInputs
  /\ TooManyInputs = TooManyInputs.
Proof.
  split; [reflexivity|].
  exact (GetFriendlyEvaluationError_injective TooManyInputs TooManyInputs eq_refl).
Defined.

Lemma main_drops_unterminated_line_witness :
  Forall (fun c => c <> 10) (L "3*3")
  /\ main (A:=Exact.arith) (Loc:=C_locale) Exact.zeroed (L "1+2" ++ 10 :: L "3*3")
     = main (A:=Exact.arith) (Loc:=C_locale) Exact.zeroed (L "1+2" ++ [10])
  /\ main (A:=Exact.arith) (Loc:=C_locale) Exact.zeroed (L "3*3")
     = ([Prompt], Exited 0 (Operators (A:=Exact.arith))).
Proof.
  assert (Hno : Forall (fun c => c <> 10) (L "3*3"))
    by (repeat (constructor; [discriminate|]); constructor).
  split; [exact Hno|].
  exact (main_drops_unterminated_line (A:=Exact.arith) (Loc:=C_locale) Exact.zeroed
           (L "1+2") (L "3*3") Hno).
Defined.

Lemma main_loop_exit_witness :
  main_loop (A:=Exact.arith) (Loc:=C_locale) Exact.zeroed [L "1+2"; []; L "2^"] (Operators (A:=Exact.arith))
  = ([Prompt; PrintResult (Some 3%Q : double (Arith:=Exact.arith)); Prompt; Prompt;
      PrintMessage (GetFriendlyEvaluationError NotEnoughInputs); Prompt],
     Exited 0 (Operators (A:=Exact.arith)))
  /\ length (filter (fun o => is_prompt (A:=Exact.arith) o = true)
       [Prompt; PrintResult (Some 3%Q : double (Arith:=Exact.arith)); Prompt; Prompt;
        PrintMessage (GetFriendlyEvaluationError NotEnoughInputs); Prompt]) = 4%nat.
Proof.
  split; [reflexivity|].
  exact (proj1 (proj2 (main_loop_exit (A:=Exact.arith) (Loc:=C_locale) Exact.zeroed
                         [L "1+2"; []; L "2^"] (Operators (A:=Exact.arith)) (Operators (A:=Exact.arith)) _ 0%Z eq_refl))).
Defined.

Lemma Evaluate_new_keys_witness :
  is_Some ((Evaluate (A:=Exact.arith) (Loc:=C_locale) Exact.zeroed (Operators (A:=Exact.arith)) (L "1 + 2")).2 !! 32)
  /\ (is_Some ((Operators (A:=Exact.arith)) !! 32)
      \/ (32 ∈ L "1 + 2" /\ C_iswalpha 32 = false /\ numeric 32 = false)).
Proof.
  assert (Hkey : is_Some ((Evaluate (A:=Exact.arith) (Loc:=C_locale) Exact.zeroed (Operators (A:=Exact.arith)) (L "1 + 2")).2 !! 32)) by (vm_compute; eauto).
  split; [exact Hkey|].
  exact (Evaluate_new_keys (A:=Exact.arith) (Loc:=C_locale) Exact.zeroed
           (Operators (A:=Exact.arith)) (L "1 + 2") 32 Hkey).
Defined.

Lemma Evaluate_digit_defined_witness :
  49 ∈ L "(1)"
  /\ (Evaluate (A:=Exact.arith) (Loc:=C_locale) Exact.zeroed (Operators (A:=Exact.arith)) (L "(1)")).1 <> TopOfEmptyStack.
Proof.
  assert (Hin : 49 ∈ L "(1)") by (right; left).
  split; [exact Hin|].
  exact (proj2 (Evaluate_digit_defined (A:=Exact.arith) (Loc:=C_locale) Exact.zeroed
                  (Operators (A:=Exact.arith)) (L "(1)") 49 Hin eq_refl)).
Defined.


Lemma Evaluate_rpn_compose_witness :
  Evaluate_rpn [Exact.number 8; Exact.number 2; Exact.tok Sub] = Exact.ok 6
  /\ Evaluate_rpn [Exact.number 3] = Exact.ok 3
  /\ Evaluate_rpn ([Exact.number 8; Exact.number 2; Exact.tok Sub]
                   ++ [Exact.number 3] ++ [Exact.tok Div])
     = Returned OK (Some (apply_operator (A:=Exact.arith) Div (Some 6%Q) (Some 3%Q))).
Proof.
  split; [reflexivity|]. split; [reflexivity|].
  exact (Evaluate_rpn_compose (A:=Exact.arith)
           [Exact.number 8; Exact.number 2; Exact.tok Sub] [Exact.number 3]
           (Exact.tok Div) (Some 6%Q) (Some 3%Q) eq_refl eq_refl eq_refl).
Defined.
